(** * micro-server-tcp: a shallow embedding of the TCP server

    The development follows the two Go sources of the package:
    - [tcp.go]: the server object ([tcpServer]), [NewHandler], [Subscribe],
      [Register], [Deregister], the heartbeat loop of [Start] and the accept
      loop [serve];
    - the subscriber file: [isExported], [isExportedOrBuiltinType],
      [newSubscriber], [validateSubscriber] and [createSubHandler].

    Conventions.
    - A Go pointer [*tcpSubscriber] is a location ([loc]); the pointee is
      never mutated after construction, so it is stored next to the value
      the map associates with the pointer.
    - A Go [error] that is only ever printed is its message; [nil] is [None].
    - Calls into collaborators (directory, bus, codec, listener) take their
      outcome from an explicit oracle argument and are recorded in a trace.
    - [range] over a Go map visits every key once in an unspecified order:
      the order is an argument of the function that iterates. *)

From Stdlib Require Import ZArith String Ascii OrderedTypeEx.
From stdpp Require Import base option list gmap strings sorting.

Set Warnings "-register-all".

(** ** reflect: the part of Go's type descriptors the package inspects *)

Module Reflect.

Inductive Kind := Bool | Int | Float64 | String_ | Struct | Interface | Map | Slice | Func | Ptr.

(** [Basic] is a predeclared type (empty [pkgPath]) or a defined type that
    is neither a pointer nor a function; [PtrTo] is the unnamed [*T];
    [FuncOf] is a function type, named or not. *)
Inductive rtype :=
| Basic (pkgPath name : string) (k : Kind)
| PtrTo (elem : rtype)
| FuncOf (pkgPath name : string) (ins outs : list rtype).

Definition kind (t : rtype) : Kind :=
  match t with
  | Basic _ _ k => k
  | PtrTo _ => Ptr
  | FuncOf _ _ _ _ => Func
  end.

Definition Name (t : rtype) : string :=
  match t with
  | Basic _ n _ => n
  | PtrTo _ => ""
  | FuncOf _ n _ _ => n
  end.

Definition PkgPath (t : rtype) : string :=
  match t with
  | Basic p _ _ => p
  | PtrTo _ => ""
  | FuncOf p _ _ _ => p
  end.

Definition ins (t : rtype) : list rtype :=
  match t with FuncOf _ _ i _ => i | _ => [] end.

Definition outs (t : rtype) : list rtype :=
  match t with FuncOf _ _ _ o => o | _ => [] end.

Definition NumIn (t : rtype) : nat := length (ins t).
Definition NumOut (t : rtype) : nat := length (outs t).

#[export] Instance Kind_eq_dec : EqDecision Kind.
Proof. solve_decision. Defined.

Definition rtype_eq_dec : ∀ a b : rtype, {a = b} + {a ≠ b}.
Proof.
  fix IH 1.
  intros [p n k|e|p n i o] [p' n' k'|e'|p' n' i' o']; try (right; congruence).
  - destruct (string_dec p p'); [|right; congruence].
    destruct (string_dec n n'); [|right; congruence].
    destruct (decide (k = k')); [left|right]; congruence.
  - destruct (IH e e'); [left|right]; congruence.
  - destruct (string_dec p p'); [|right; congruence].
    destruct (string_dec n n'); [|right; congruence].
    destruct (List.list_eq_dec IH i i'); [|right; congruence].
    destruct (List.list_eq_dec IH o o'); [left|right]; congruence.
Defined.

#[export] Instance rtype_eq : EqDecision rtype := rtype_eq_dec.

(** The descriptor of the predeclared interface type [error]. *)
Definition typeOfError : rtype := Basic "" "error" Interface.

(** An entry of a type's method set: [Type] has the receiver as first
    input, as [reflect.Method.Type] does. *)
Record Method := { m_Name : string; m_Type : rtype }.

End Reflect.

Import (hints) Reflect.
Abbreviation rtype := Reflect.rtype.

(** ** unicode / utf8: the two library functions [isExported] calls *)

Class Unicode := {
  utf8_DecodeRuneInString : string → Z * nat;
  unicode_IsUpper : Z → bool
}.

(** The ASCII fragment of the two functions, enough to run examples:
    a leading byte below 0x80 is its own rune, anything else decodes to
    [RuneError]; the upper-case letters are [A-Z]. *)
Definition RuneError : Z := 65533.

Definition ascii_DecodeRuneInString (s : string) : Z * nat :=
  match s with
  | EmptyString => (RuneError, 0)
  | String c _ =>
      let n := Z.of_N (N_of_ascii c) in
      if (n <? 128)%Z then (n, 1) else (RuneError, 1)
  end.

Definition ascii_IsUpper (r : Z) : bool := ((65 <=? r) && (r <=? 90))%Z.

Definition ascii_unicode : Unicode :=
  {| utf8_DecodeRuneInString := ascii_DecodeRuneInString;
     unicode_IsUpper := ascii_IsUpper |}.

(** ** Errors *)

(** The errors the package builds itself keep the values that
    [fmt.Errorf] formats into the message; an error received from a
    collaborator or from a handler is its message. *)
Inductive error :=
| ErrInvalidSubscriber                              (* "invalid subscriber: expected *tcpSubscriber" *)
| ErrNoHandlers                                     (* "invalid subscriber: no handler functions" *)
| ErrWrongNumArgs (name : string) (numIn : nat)     (* "subscriber %v takes wrong number of args: %v required signature %s" *)
| ErrArgNotExported (name : string) (argType : rtype)
                                                    (* "subscriber %v argument type not exported: %v" *)
| ErrWrongNumOuts (name : string) (numOut : nat)    (* "subscriber %v has wrong number of outs: %v require signature %s" *)
| ErrNotError (name : string) (returnType : rtype)  (* "subscriber %v returns %v not error" *)
| ErrAlreadyExists                                  (* "subscriber %v already exists" *)
| ErrUnknownContentType                             (* codec.ErrUnknownContentType *)
| ErrText (msg : string).                           (* any other error, by its message *)

Definition subSig : string := "func(context.Context, interface{}) error".

(** ** The subscriber file *)

(** What a handler is called with: [vals] of [createSubHandler]. *)
Inductive rvalue :=
| VRcvr                                  (* sb.rcvr *)
| VCtx (md : gmap string string)         (* reflect.ValueOf(ctx) *)
| VPayload (p : string).                 (* reflect.ValueOf(msg.Payload()) *)

(** [method.Call(vals)] followed by [returnValues[0].Interface()]:
    [None] is a nil error, [Some m] an error whose [Error()] is [m]. *)
Definition callable := list rvalue → option string.

Record handler := {
  method : callable;
  reqType : option rtype;
  ctxType : option rtype
}.

(** An advertised endpoint: [Request] is computed by a collaborator
    ([registry.ExtractSubValue]) and is kept as the type it is computed from. *)
Record Endpoint := {
  ep_Name : string;
  ep_Request : option rtype;
  ep_Metadata : list (string * string)
}.

Record SubscriberOptions := {
  AutoAck : bool;
  Queue : string;
  Internal : bool;
  so_Context : option string
}.

(** The user's [sub interface{}] as reflection sees it: its type, the
    method set of that type, and what calling the function or one of the
    methods does. *)
Record subscriberValue := {
  sv_type : rtype;
  sv_methods : list Reflect.Method;
  sv_func : callable;
  sv_method : nat → callable
}.

Record tcpSubscriber := {
  topic : string;
  typ : rtype;
  subscriber : subscriberValue;
  handlers : list handler;
  endpoints : list Endpoint;
  opts : SubscriberOptions
}.

Section Exported.
Context `{Unicode}.

(** Is this an exported - upper case - name? *)
Definition isExported (name : string) : bool :=
  let '(r, _) := utf8_DecodeRuneInString name in
  unicode_IsUpper r.

(** Is this type exported or a builtin?  The loop strips pointers. *)
Fixpoint isExportedOrBuiltinType (t : rtype) : bool :=
  match t with
  | Reflect.PtrTo e => isExportedOrBuiltinType e
  | _ => isExported (Reflect.Name t) || bool_decide (Reflect.PkgPath t = "")
  end.

End Exported.

(** [reflect.Indirect(hdlr).Type().Name()] *)
Definition indirectName (t : rtype) : string :=
  match t with
  | Reflect.PtrTo e => Reflect.Name e
  | _ => Reflect.Name t
  end.

(** [textproto.CanonicalMIMEHeaderKey], which [metadata.Set] applies to the
    key: a key made of header field bytes only gets its first letter and
    every letter after a hyphen in upper case and the other letters in lower
    case; any other key is left as it is. *)
Definition validHeaderFieldByte (c : ascii) : bool :=
  let n := N_of_ascii c in
  ((48 <=? n) && (n <=? 57) || (65 <=? n) && (n <=? 90) || (97 <=? n) && (n <=? 122)
   || bool_decide (n ∈ [33; 35; 36; 37; 38; 39; 42; 43; 45; 46; 94; 95; 96; 124; 126]))%N.

Fixpoint forallChars (f : ascii → bool) (s : string) : bool :=
  match s with
  | EmptyString => true
  | String c rest => f c && forallChars f rest
  end.

Fixpoint canonicalize (upper : bool) (s : string) : string :=
  match s with
  | EmptyString => EmptyString
  | String c rest =>
      let n := N_of_ascii c in
      let n' := if upper && (97 <=? n)%N && (n <=? 122)%N then (n - 32)%N
                else if negb upper && (65 <=? n)%N && (n <=? 90)%N then (n + 32)%N
                else n in
      String (ascii_of_N n') (canonicalize (n' =? 45)%N rest)
  end.

Definition CanonicalMIMEHeaderKey (s : string) : string :=
  if forallChars validHeaderFieldByte s then canonicalize true s else s.

(** [md.Set(key, val)] on a metadata map kept as the list of its entries:
    the entry under the canonical key is replaced, or added. *)
Definition metadata_Set (md : list (string * string)) (key val : string)
    : list (string * string) :=
  let k := CanonicalMIMEHeaderKey key in
  if bool_decide (k ∈ md.*1)
  then (λ e, if bool_decide (e.1 = k) then (k, val) else e) <$> md
  else md ++ [(k, val)].

Definition subEndpoint (name : string) (t : rtype) (topic : string) : Endpoint :=
  {| ep_Name := name;
     ep_Request := Some t;
     ep_Metadata := metadata_Set (metadata_Set [] "topic" topic) "subscriber" "true" |}.

(** The handler [newSubscriber] builds for a function subscriber:
    [switch typ.NumIn()] with its cases 1 and 2. *)
Definition funcHandler (sub : subscriberValue) : handler :=
  match Reflect.ins (sv_type sub) with
  | [req] => {| method := sv_func sub; reqType := Some req; ctxType := None |}
  | [ctx; req] => {| method := sv_func sub; reqType := Some req; ctxType := Some ctx |}
  | _ => {| method := sv_func sub; reqType := None; ctxType := None |}
  end.

(** The handler [newSubscriber] builds for method number [m]:
    [switch method.Type.NumIn()] with its cases 2 and 3 (input 0 is the
    receiver). *)
Definition methodHandler (sub : subscriberValue) (m : nat) (mt : Reflect.Method) : handler :=
  match Reflect.ins (Reflect.m_Type mt) with
  | [_; req] => {| method := sv_method sub m; reqType := Some req; ctxType := None |}
  | [_; ctx; req] => {| method := sv_method sub m; reqType := Some req; ctxType := Some ctx |}
  | _ => {| method := sv_method sub m; reqType := None; ctxType := None |}
  end.

Definition defaultSubscriberOptions : SubscriberOptions :=
  {| AutoAck := true; Queue := ""; Internal := false; so_Context := None |}.

Definition newSubscriber (topic : string) (sub : subscriberValue)
    (opts : list (SubscriberOptions → SubscriberOptions)) : tcpSubscriber :=
  let options := foldl (λ o f, f o) defaultSubscriberOptions opts in
  let typ := sv_type sub in
  if decide (Reflect.kind typ = Reflect.Func) then
    {| topic := topic; typ := typ; subscriber := sub;
       handlers := [funcHandler sub];
       endpoints := [subEndpoint "Func" typ topic];
       opts := options |}
  else
    let name := indirectName typ in
    {| topic := topic; typ := typ; subscriber := sub;
       handlers := imap (methodHandler sub) (sv_methods sub);
       endpoints := (λ mt, subEndpoint (name +:+ "." +:+ Reflect.m_Name mt) (Reflect.m_Type mt) topic)
                      <$> sv_methods sub;
       opts := options |}.

Section Validate.
Context `{Unicode}.

(** The [Func] branch of [validateSubscriber]. *)
Definition validateFunc (typ : rtype) : option error :=
  let name := "Func" in
  match Reflect.ins typ with
  | [_; argType] =>
      if negb (isExportedOrBuiltinType argType) then
        Some (ErrArgNotExported name argType)
      else
        match Reflect.outs typ with
        | [returnType] =>
            if decide (returnType = Reflect.typeOfError) then None
            else Some (ErrNotError name returnType)
        | _ => Some (ErrWrongNumOuts name (Reflect.NumOut typ))
        end
  | _ => Some (ErrWrongNumArgs name (Reflect.NumIn typ))
  end.

(** The body of the loop over the method set, for one method. *)
Definition validateMethod (name : string) (mt : Reflect.Method) : option error :=
  let mtype := Reflect.m_Type mt in
  let mname := name +:+ "." +:+ Reflect.m_Name mt in
  match Reflect.ins mtype with
  | [_; _; argType] =>
      if negb (isExportedOrBuiltinType argType) then
        Some (ErrArgNotExported name argType)
      else
        match Reflect.outs mtype with
        | [returnType] =>
            if decide (returnType = Reflect.typeOfError) then None
            else Some (ErrNotError mname returnType)
        | _ => Some (ErrWrongNumOuts mname (Reflect.NumOut mtype))
        end
  | _ => Some (ErrWrongNumArgs mname (Reflect.NumIn mtype))
  end.

(** The loop itself: the first failing method ends it. *)
Fixpoint validateMethods (name : string) (ms : list Reflect.Method) : option error :=
  match ms with
  | [] => None
  | mt :: ms' =>
      match validateMethod name mt with
      | Some e => Some e
      | None => validateMethods name ms'
      end
  end.

Definition validateSubscriber (sub : tcpSubscriber) : option error :=
  let typ := sv_type (subscriber sub) in
  if decide (Reflect.kind typ = Reflect.Func) then validateFunc typ
  else validateMethods (indirectName typ) (sv_methods (subscriber sub)).

End Validate.

(** ** The subscription dispatcher: [createSubHandler] *)

(** [broker.Message]: headers and raw body. *)
Record Message := { Header : gmap string string; Body : string }.

(** What a codec call returns: a value, or an error by its message. *)
Inductive res (A : Type) :=
| Ok (a : A)
| Fail (msg : string).
Arguments Ok {A} a.
Arguments Fail {A} msg.

(** The codec interface.  [ReadHeader] consumes the frame header from the
    buffer and leaves the rest; [ReadBody] decodes the rest into a fresh
    value of the handler's request type and yields that payload. *)
Record Codec := {
  ReadHeader : string → res string;
  ReadBody : string → rtype → res string
}.

(** [tcpMessage], without the codec it carries along. *)
Record tcpMessage := {
  tm_topic : string;
  tm_contentType : string;
  tm_payload : string;
  tm_header : gmap string string;
  tm_body : string
}.

(** [server.SubscriberFunc] and [server.SubscriberWrapper]. *)
Definition SubscriberFunc := gmap string string → tcpMessage → option string.
Definition SubscriberWrapper := SubscriberFunc → SubscriberFunc.

(** The fields of [server.Options] the package reads. *)
Record Options := {
  Codecs : gmap string Codec;
  SubWrappers : list SubscriberWrapper;
  o_Context : string
}.

Definition newCodec (o : Options) (ct : string) : option Codec := Codecs o !! ct.

(** The separator of the combined error: a line feed. *)
Definition newline : string := String "010" EmptyString.

Fixpoint strings_Join (elems : list string) (sep : string) : string :=
  match elems with
  | [] => ""
  | [x] => x
  | x :: rest => x +:+ sep +:+ strings_Join rest sep
  end.

(** The closure [fn] built for one handler. *)
Definition handlerFn (sb : tcpSubscriber) (h : handler) : SubscriberFunc :=
  λ ctx msg,
    let vals := (if decide (Reflect.kind (typ sb) ≠ Reflect.Func) then [VRcvr] else [])
                ++ (if ctxType h is Some _ then [VCtx ctx] else [])
                ++ [VPayload (tm_payload msg)] in
    method h vals.

(** [for i := len(opts.SubWrappers); i > 0; i-- { fn = opts.SubWrappers[i-1](fn) }] *)
Definition wrap (ws : list SubscriberWrapper) (fn : SubscriberFunc) : SubscriberFunc :=
  foldr (λ w f, w f) fn ws.

(** How one run of the first loop ends for one handler. *)
Inductive step :=
| Launched (outcome : option string)   (* the goroutine was started; what it sends *)
| Abort (msg : string)                 (* [return err] out of the whole closure *)
| Panic.                               (* nil [reqType] *)

(** One iteration of the first loop: decode for handler [h], then start
    its goroutine. *)
Definition launch (cf : Codec) (sb : tcpSubscriber) (opts : Options)
    (ctx : gmap string string) (ct : string) (msg : Message) (h : handler) : step :=
  match reqType h with
  | None => Panic
  | Some rt =>
      match ReadHeader cf (Body msg) with
      | Fail e => Abort e
      | Ok buf =>
          match ReadBody cf buf rt with
          | Fail e => Abort e
          | Ok req =>
              let fn := wrap (SubWrappers opts) (handlerFn sb h) in
              Launched (fn ctx {| tm_topic := topic sb; tm_contentType := ct;
                                  tm_payload := req; tm_header := Header msg;
                                  tm_body := Body msg |})
          end
      end
  end.

(** What a call returns: [nil], an error, or it panics. *)
Inductive outcome :=
| RNil
| RErr (e : error)
| RPanic.

(** The first loop, from index [i] on: the goroutines started so far
    (handler index and the value sent on [results]) and how the loop ended
    ([None]: it ran to the end). *)
Fixpoint launchAll (cf : Codec) (sb : tcpSubscriber) (opts : Options)
    (ctx : gmap string string) (ct : string) (msg : Message)
    (i : nat) (hs : list handler) : list (nat * option string) * option outcome :=
  match hs with
  | [] => ([], None)
  | h :: hs' =>
      match launch cf sb opts ctx ct msg h with
      | Panic => ([], Some RPanic)
      | Abort e => ([], Some (RErr (ErrText e)))
      | Launched o =>
          let '(started, end_) := launchAll cf sb opts ctx ct msg (S i) hs' in
          ((i, o) :: started, end_)
      end
  end.

(** The second loop: [len(sb.handlers)] receives from [results].  The
    goroutines send in the order they finish; [sched] is that order, as
    positions in the list of started goroutines. *)
Definition collect (started : list (nat * option string)) (sched : list nat) : list string :=
  omap (λ k, started !! k ≫= snd) sched.

(** What one call of the closure does: its result and the goroutines it
    started. *)
Record dispatch := {
  d_result : outcome;
  d_started : list (nat * option string)
}.

(** The closure [createSubHandler] returns, applied to the event [p].
    [srv] is [s.opts], read by [s.newCodec] when the event arrives; [opts]
    is the configuration captured when the closure was built. *)
Definition createSubHandler (srv : Options) (sb : tcpSubscriber) (opts : Options)
    (sched : list nat) (p : Message) : dispatch :=
  let msg := p in
  let ct := default "" (Header msg !! "Content-Type") in
  match newCodec srv ct with
  | None => {| d_result := RErr ErrUnknownContentType; d_started := [] |}
  | Some cf =>
      let hdr := delete "Content-Type" (Header msg) in
      match launchAll cf sb opts hdr ct msg 0 (handlers sb) with
      | (started, Some end_) => {| d_result := end_; d_started := started |}
      | (started, None) =>
          let errors := collect started sched in
          {| d_result := if decide (0 < length errors)
                         then RErr (ErrText ("subscriber error: " +:+ strings_Join errors newline))
                         else RNil;
             d_started := started |}
      end
  end.

(** ** The server object *)

Definition loc := positive.

(** [register.Node], [register.Service]: what the directory is told. *)
Record Node := { n_Id : string; n_Metadata : gmap string string }.

Record Service := {
  svc_Name : string;
  svc_Nodes : list Node;
  svc_Endpoints : list Endpoint
}.

(** A live bus subscription, as returned by [Broker.Subscribe]. *)
Record brokerSubscriber := { bs_id : nat; bs_topic : string }.

(** [server.HandlerOptions]: [Metadata] is listed in the order [range]
    visits it. *)
Record HandlerOptions := {
  ho_Internal : bool;
  ho_Metadata : list (string * list (string * string))
}.

Record tcpHandler := {
  eps : list Endpoint;
  h_opts : HandlerOptions;
  maxMsgSize : Z
}.

Record tcpServer := {
  s_opts : Options;
  hd : option tcpHandler;
  subscribers : gmap loc (tcpSubscriber * list brokerSubscriber);
  registered : bool;
  rsvc : option Service
}.

(** Calls into the directory and the bus, with what they returned. *)
Inductive event :=
| DirRegister (svc : Service) (err : option string)
| DirDeregister (svc : Service) (err : option string)
| BusSubscribe (sb : loc) (topic queue ctx : string) (autoAck : bool) (r : res brokerSubscriber)
| BusUnsubscribe (s : brokerSubscriber) (err : option string).

Definition NewServer (o : Options) : tcpServer :=
  {| s_opts := o; hd := None; subscribers := ∅; registered := false; rsvc := None |}.

Definition Handle (h : tcpServer) (handler : tcpHandler) : tcpServer :=
  {| s_opts := s_opts h; hd := Some handler; subscribers := subscribers h;
     registered := registered h; rsvc := rsvc h |}.

(** [maxMsgSizeCtx] is [h.opts.Context.Value(maxMsgSizeKey{}).(int)], when
    the context holds one. *)
Definition handlerEndpoint (entry : string * list (string * string)) : Endpoint :=
  {| ep_Name := entry.1; ep_Request := None; ep_Metadata := entry.2 |}.

Definition NewHandler (options : HandlerOptions) (maxMsgSizeCtx : option Z) : tcpHandler :=
  let eps :=
    if negb (ho_Internal options)
    then handlerEndpoint <$> ho_Metadata options
    else [] in
  {| eps := eps; h_opts := options;
     maxMsgSize := match maxMsgSizeCtx with
                   | Some size => if (0 <? size)%Z then size else 0%Z
                   | None => 0%Z
                   end |}.

(** [server.Subscriber] values: the package's own [*tcpSubscriber] (a
    pointer and what it points to) or any other implementation. *)
Inductive Subscriber :=
| TcpSub (l : loc) (sub : tcpSubscriber)
| OtherSub (topic : string).

Definition set_subscribers (h : tcpServer)
    (m : gmap loc (tcpSubscriber * list brokerSubscriber)) : tcpServer :=
  {| s_opts := s_opts h; hd := hd h; subscribers := m;
     registered := registered h; rsvc := rsvc h |}.

Section Subscribe.
Context `{Unicode}.

Definition Subscribe (h : tcpServer) (sb : Subscriber) : tcpServer * option error :=
  match sb with
  | OtherSub _ => (h, Some ErrInvalidSubscriber)
  | TcpSub l sub =>
      if decide (length (handlers sub) = 0) then (h, Some ErrNoHandlers)
      else
        match validateSubscriber sub with
        | Some err => (h, Some err)
        | None =>
            match subscribers h !! l with
            | Some _ => (h, Some ErrAlreadyExists)
            | None => (set_subscribers h (<[l := (sub, [])]> (subscribers h)), None)
            end
        end
  end.

End Subscribe.

(** *** sort.Slice

    [sort.Slice] is not stable.  The model is the insertion sort the
    library runs on short slices: an element moves left while [less] holds
    against its left neighbour.  Fed with every iteration order of the map,
    it yields every sorted arrangement (a sorted list is left as it is), so
    no behaviour of an unstable sort is lost. *)
Fixpoint insertLeft {A} (less : A → A → bool) (x : A) (revPrefix : list A) : list A :=
  match revPrefix with
  | [] => [x]
  | p :: ps => if less x p then p :: insertLeft less x ps else x :: p :: ps
  end.

Definition sort_Slice {A} (less : A → A → bool) (l : list A) : list A :=
  reverse (foldl (λ acc x, insertLeft less x acc) [] l).

(** Go's [>] on strings: bytewise lexicographic. *)
Definition string_gt (a b : string) : bool :=
  match String.compare a b with Gt => true | _ => false end.

Definition lessTopic (a b : tcpSubscriber) : bool := string_gt (topic a) (topic b).

(** The first loop of the cold path: the subscribers to advertise, in the
    order [range] visits the map. *)
Definition subscriberList (m : gmap loc (tcpSubscriber * list brokerSubscriber))
    (order : list loc) : list tcpSubscriber :=
  filter (λ e, Internal (opts e) = false) (omap (λ l, fst <$> m !! l) order).

Definition advertised (eps : list Endpoint)
    (m : gmap loc (tcpSubscriber * list brokerSubscriber)) (order : list loc) : list Endpoint :=
  eps ++ mjoin (endpoints <$> sort_Slice lessTopic (subscriberList m order)).

(** What the collaborators answer during one [Register]. *)
Record RegisterEnv := {
  newService : res Service;                     (* server.NewRegisterService(h) *)
  dirRegister : option string;                  (* server.DefaultRegisterFunc *)
  orderAdvertise : list loc;                    (* range order, first loop *)
  orderArm : list loc;                          (* range order, second loop *)
  busSubscribe : loc → res brokerSubscriber     (* config.Broker.Subscribe *)
}.

(** [service.Nodes[0].Metadata[k] = v] *)
Definition setNodeMetadata (k v : string) (svc : Service) : option Service :=
  match svc_Nodes svc with
  | [] => None
  | n :: ns =>
      Some {| svc_Name := svc_Name svc;
              svc_Nodes := {| n_Id := n_Id n; n_Metadata := <[k := v]> (n_Metadata n) |} :: ns;
              svc_Endpoints := svc_Endpoints svc |}
  end.

Definition setEndpoints (svc : Service) (e : list Endpoint) : Service :=
  {| svc_Name := svc_Name svc; svc_Nodes := svc_Nodes svc; svc_Endpoints := e |}.

(** The second loop of the cold path: arm every subscriber against the
    bus; the first failing [Subscribe] ends the loop. *)
Fixpoint armAll (config : Options) (busSub : loc → res brokerSubscriber)
    (m : gmap loc (tcpSubscriber * list brokerSubscriber)) (order : list loc)
    : gmap loc (tcpSubscriber * list brokerSubscriber) * list event * option string :=
  match order with
  | [] => (m, [], None)
  | l :: order' =>
      match m !! l with
      | None => armAll config busSub m order'
      | Some (sb, _) =>
          let subCtx := default (o_Context config) (so_Context (opts sb)) in
          let r := busSub l in
          let ev := BusSubscribe l (topic sb) (Queue (opts sb)) subCtx (AutoAck (opts sb)) r in
          match r with
          | Fail err => (m, [ev], Some err)
          | Ok sub =>
              let '(m', evs, err) := armAll config busSub (<[l := (sb, [sub])]> m) order' in
              (m', ev :: evs, err)
          end
      end
  end.

Definition Register (h : tcpServer) (env : RegisterEnv) : tcpServer * list event * outcome :=
  let config := s_opts h in
  match hd h with
  | None => (h, [], RPanic)
  | Some handler =>
      let eps := eps handler in
      match rsvc h with
      | Some rsvc =>
          (* if service already filled, reuse it and return early *)
          match dirRegister env with
          | Some err => (h, [DirRegister rsvc (Some err)], RErr (ErrText err))
          | None => (h, [DirRegister rsvc None], RNil)
          end
      | None =>
          match newService env with
          | Fail err => (h, [], RErr (ErrText err))
          | Ok service =>
              match setNodeMetadata "protocol" "tcp" service ≫= setNodeMetadata "transport" "tcp" with
              | None => (h, [], RPanic)
              | Some service =>
                  let service := setEndpoints service (advertised eps (subscribers h) (orderAdvertise env)) in
                  let registered := registered h in
                  match dirRegister env with
                  | Some err => (h, [DirRegister service (Some err)], RErr (ErrText err))
                  | None =>
                      if registered then (h, [DirRegister service None], RNil)
                      else
                        let '(m, evs, err) := armAll config (busSubscribe env) (subscribers h) (orderArm env) in
                        match err with
                        | Some err =>
                            (set_subscribers h m, DirRegister service None :: evs, RErr (ErrText err))
                        | None =>
                            ({| s_opts := s_opts h; hd := hd h; subscribers := m;
                                registered := true; rsvc := Some service |},
                             DirRegister service None :: evs, RNil)
                        end
                  end
              end
          end
      end
  end.

(** What the collaborators answer during one [Deregister]. *)
Record DeregisterEnv := {
  d_newService : res Service;
  dirDeregister : option string;                (* server.DefaultDeregisterFunc *)
  orderUnsubscribe : list loc;                  (* range order *)
  busUnsubscribe : brokerSubscriber → option string
}.

(** The loop of [Deregister]: unsubscribe every binding (a failure is only
    logged) and clear the entry. *)
Fixpoint unsubscribeAll (unsub : brokerSubscriber → option string)
    (m : gmap loc (tcpSubscriber * list brokerSubscriber)) (order : list loc)
    : gmap loc (tcpSubscriber * list brokerSubscriber) * list event :=
  match order with
  | [] => (m, [])
  | l :: order' =>
      match m !! l with
      | None => unsubscribeAll unsub m order'
      | Some (sb, subs) =>
          let '(m', evs) := unsubscribeAll unsub (<[l := (sb, [])]> m) order' in
          (m', ((λ s, BusUnsubscribe s (unsub s)) <$> subs) ++ evs)
      end
  end.

Definition Deregister (h : tcpServer) (env : DeregisterEnv) : tcpServer * list event * outcome :=
  match d_newService env with
  | Fail err => (h, [], RErr (ErrText err))
  | Ok service =>
      match dirDeregister env with
      | Some err => (h, [DirDeregister service (Some err)], RErr (ErrText err))
      | None =>
          if negb (registered h) then (h, [DirDeregister service None], RNil)
          else
            let '(m, evs) := unsubscribeAll (busUnsubscribe env) (subscribers h) (orderUnsubscribe env) in
            ({| s_opts := s_opts h; hd := hd h; subscribers := m;
                registered := false; rsvc := rsvc h |},
             DirDeregister service None :: evs, RNil)
      end
  end.

(** ** The heartbeat loop of [Start] *)

(** What one tick of the ticker sees: the health predicate's answer and
    the collaborators' answers to the calls the tick may make. *)
Record TickEnv := {
  registerCheck : option string;               (* h.opts.RegisterCheck *)
  t_deregister : DeregisterEnv;
  t_register : RegisterEnv
}.

(** The calls of the server's own methods a tick makes, with their
    results. *)
Inductive call :=
| CallDeregister (r : outcome)
| CallRegister (r : outcome).

(** The body of [case <-t.C:]. *)
Definition tick (h : tcpServer) (env : TickEnv) : tcpServer * list event * list call :=
  let registered := registered h in
  let rerr := registerCheck env in
  let '(h1, evs1, calls1, continue) :=
    if bool_decide (rerr ≠ None) && registered then
      (* deregister self in case of error *)
      let '(h', evs, r) := Deregister h (t_deregister env) in
      (h', evs, [CallDeregister r], false)
    else if bool_decide (rerr ≠ None) && negb registered then
      (h, [], [], true)
    else (h, [], [], false) in
  if continue then (h1, evs1, calls1)
  else
    let '(h2, evs2, r) := Register h1 (t_register env) in
    (h2, evs1 ++ evs2, calls1 ++ [CallRegister r]).

(** ** The accept loop: [serve] *)

(** [time.Duration] is an [int64] count of nanoseconds. *)
Definition Duration := Z.
Definition Millisecond : Duration := 1000000%Z.
Definition Second : Duration := 1000000000%Z.

Definition wrap64 (z : Z) : Z := ((z + 2 ^ 63) mod 2 ^ 64 - 2 ^ 63)%Z.

(** What [ln.Accept()] returns, and whether a [Stop] is waiting on the
    exit channel at that moment. *)
Inductive acceptResult :=
| Conn (c : nat)          (* a connection *)
| Temporary               (* a [net.Error] whose [Temporary()] is true *)
| Fatal.                  (* any other error *)

Record accept := { a_result : acceptResult; a_exit : bool }.

Inductive action :=
| Sleep (d : Duration)    (* time.Sleep(tempDelay) *)
| Serve (c : nat).        (* go h.Serve(c) *)

(** The backoff update of a temporary failure. *)
Definition nextDelay (tempDelay : Duration) : Duration :=
  let tempDelay := if (tempDelay =? 0)%Z then wrap64 (5 * Millisecond)%Z
                   else wrap64 (tempDelay * 2)%Z in
  let max := wrap64 (1 * Second)%Z in
  if (max <? tempDelay)%Z then max else tempDelay.

(** The loop, run on the results of successive [Accept] calls.  The result
    is what the loop did, the value of [tempDelay] it ended with, and
    whether it returned ([false]: it is blocked in the next [Accept]). *)
Fixpoint serve (tempDelay : Duration) (accepts : list accept)
    : list action * Duration * bool :=
  match accepts with
  | [] => ([], tempDelay, false)
  | a :: rest =>
      match a_result a with
      | Conn c =>
          let '(acts, d, r) := serve tempDelay rest in
          (Serve c :: acts, d, r)
      | Temporary =>
          if a_exit a then ([], tempDelay, true)
          else
            let tempDelay := nextDelay tempDelay in
            let '(acts, d, r) := serve tempDelay rest in
            (Sleep tempDelay :: acts, d, r)
      | Fatal => ([], tempDelay, true)
      end
  end.

(** The sleeps among the actions, in order. *)
Definition sleeps (acts : list action) : list Duration :=
  omap (λ a, match a with Sleep d => Some d | Serve _ => None end) acts.

(** [min(5ms * 2^k, 1s)]: the delay the [k]-th temporary failure (from 0)
    since the loop started sleeps, whatever was accepted in between. *)
Definition backoff (k : nat) : Duration := Z.min (5 * Millisecond * 2 ^ Z.of_nat k)%Z Second.

(** The value of [tempDelay] after [k] temporary failures. *)
Definition delayAfter (k : nat) : Duration :=
  match k with
  | 0 => 0%Z
  | S j => backoff j
  end.

(** ** Runs of the server

    The operations a caller (or the heartbeat) performs on the server, and
    the state a sequence of them leaves. *)
Inductive op :=
| OpHandle (handler : tcpHandler)
| OpSubscribe (sb : Subscriber)
| OpRegister (env : RegisterEnv)
| OpDeregister (env : DeregisterEnv)
| OpTick (env : TickEnv).

Section Runs.
Context `{Unicode}.

Definition runOp (h : tcpServer) (o : op) : tcpServer :=
  match o with
  | OpHandle handler => Handle h handler
  | OpSubscribe sb => (Subscribe h sb).1
  | OpRegister env => (Register h env).1.1
  | OpDeregister env => (Deregister h env).1.1
  | OpTick env => (tick h env).1.1
  end.

Definition runOps (h : tcpServer) (ops : list op) : tcpServer := foldl runOp h ops.

(** The shape [validateSubscriber] accepts for a function type: [leading]
    parameters before the payload (the context for a function; the receiver
    and the context for a method), an exported or builtin payload type, and
    the single result [error]. *)
Definition requiredShape (leading : nat) (t : rtype) : Prop :=
  ∃ pre a, Reflect.ins t = pre ++ [a] ∧ length pre = leading
           ∧ isExportedOrBuiltinType a = true
           ∧ Reflect.outs t = [Reflect.typeOfError].

End Runs.

(** The type a pointer type points to, through every level. *)
Fixpoint pointee (t : rtype) : rtype :=
  match t with
  | Reflect.PtrTo e => pointee e
  | _ => t
  end.

Section Canonical.
Context `{Unicode}.

(** Exported or builtin, as the comments of the source put it: the name of
    the type behind the pointers starts with an upper-case letter, or that
    type has no package path. *)
Definition exportedOrBuiltin (t : rtype) : Prop :=
  unicode_IsUpper (utf8_DecodeRuneInString (Reflect.Name (pointee t))).1 = true
  ∨ Reflect.PkgPath (pointee t) = "".

(** The signature the messages of [validateSubscriber] ask for, written
    out: [leading] parameters (the context for a function; the receiver and
    the context for a method), then the payload of an exported or builtin
    type, and [error] as the one result. *)
Definition canonicalShape (leading : nat) (t : rtype) : Prop :=
  ∃ pre a, Reflect.ins t = pre ++ [a] ∧ length pre = leading
           ∧ exportedOrBuiltin a
           ∧ Reflect.outs t = [Reflect.typeOfError].

(** The error a signature [t] that is not of that shape is reported with,
    after the four messages of [validateSubscriber], in the order of its
    checks: the number of parameters, the payload type, the number of
    results, the type of the result.  [who] is the name the messages about
    the counts and the result carry, [whoArg] the name in the message about
    the payload type. *)
Inductive rejection (leading : nat) (who whoArg : string) (t : rtype) : error → Prop :=
| RejectNumArgs :
    Reflect.NumIn t ≠ S leading →
    rejection leading who whoArg t (ErrWrongNumArgs who (Reflect.NumIn t))
| RejectArgType (pre : list rtype) (a : rtype) :
    Reflect.ins t = pre ++ [a] → length pre = leading →
    ¬ exportedOrBuiltin a →
    rejection leading who whoArg t (ErrArgNotExported whoArg a)
| RejectNumOuts (pre : list rtype) (a : rtype) :
    Reflect.ins t = pre ++ [a] → length pre = leading →
    exportedOrBuiltin a →
    Reflect.NumOut t ≠ 1 →
    rejection leading who whoArg t (ErrWrongNumOuts who (Reflect.NumOut t))
| RejectResult (pre : list rtype) (a r : rtype) :
    Reflect.ins t = pre ++ [a] → length pre = leading →
    exportedOrBuiltin a →
    Reflect.outs t = [r] → r ≠ Reflect.typeOfError →
    rejection leading who whoArg t (ErrNotError who r).

End Canonical.

Abbreviation registry := (gmap loc (tcpSubscriber * list brokerSubscriber)).

(** [m'] holds the subscribers of [m], under the same pointers. *)
Definition keeps (m m' : registry) : Prop :=
  ∀ l sub, fst <$> m !! l = Some sub → fst <$> m' !! l = Some sub.

(** No subscriber holds more than one binding. *)
Definition singleBinding (m : registry) : Prop :=
  map_Forall (λ _ v, length v.2 ≤ 1) m.

(** What every run keeps true of the server: once registered, the service
    record is cached and a handler is set; no subscriber holds more than one
    binding. *)
Definition wellFormed (h : tcpServer) : Prop :=
  (registered h = true → is_Some (rsvc h) ∧ is_Some (hd h))
  ∧ singleBinding (subscribers h).

(** [a] may stand before [b] in a list sorted by topic, descending. *)
Definition descending (a b : tcpSubscriber) : Prop := lessTopic b a = false.

(** The subscribers of the registry that are not internal. *)
Definition nonInternal (m : registry) : list tcpSubscriber :=
  filter (λ e, Internal (opts e) = false) (map_to_list m).*2.*1.

(** The handler or method name an error of [validateSubscriber] is about. *)
Definition errorName (e : error) : option string :=
  match e with
  | ErrWrongNumArgs n _ | ErrArgNotExported n _ | ErrWrongNumOuts n _ | ErrNotError n _ => Some n
  | _ => None
  end.

(** ** The wrapper loop, index by index

    [wrap] above is the loop [for i := len(ws); i > 0; i-- { fn = ws[i-1](fn) }]
    read as a fold; [wrapLoop ws i fn] is the same loop run from index [i]
    down, one lookup per iteration. *)
Fixpoint wrapLoop (ws : list SubscriberWrapper) (i : nat) (fn : SubscriberFunc) : SubscriberFunc :=
  match i with
  | 0 => fn
  | S j =>
      match ws !! j with
      | Some w => wrapLoop ws j (w fn)
      | None => fn
      end
  end.

(** ** More on the registry *)

(** The [Broker.Subscribe] call the second loop of [Register] makes for
    the subscriber under [l]. *)
Definition subscribeCall (config : Options) (busSub : loc → res brokerSubscriber)
    (m : registry) (l : loc) : option event :=
  (λ v, BusSubscribe l (topic v.1) (Queue (opts v.1))
          (default (o_Context config) (so_Context (opts v.1)))
          (AutoAck (opts v.1)) (busSub l)) <$> m !! l.

(** The [Unsubscribe] calls the loop of [Deregister] makes for the
    subscriber under [l]. *)
Definition unsubscribeCalls (unsub : brokerSubscriber → option string)
    (m : registry) (l : loc) : list event :=
  match m !! l with
  | Some v => (λ s, BusUnsubscribe s (unsub s)) <$> v.2
  | None => []
  end.

(** [h'] comes after [h] in a run that started with the service record
    [svc] cached: the record is still the cached one, a server that was not
    registered is not registered, and a subscriber's bindings are those it
    had or none. *)
Definition cachedAfter (svc : Service) (h h' : tcpServer) : Prop :=
  rsvc h' = Some svc
  ∧ (registered h = false → registered h' = false)
  ∧ ∀ l sb bs, subscribers h' !! l = Some (sb, bs) →
               bs = [] ∨ subscribers h !! l = Some (sb, bs).

(** ** More on the accept loop *)

(** The loop returns on this result of [Accept]: an error that is not
    temporary, or any error while a stop is waiting on the exit channel. *)
Definition stops (a : accept) : bool :=
  match a_result a with
  | Conn _ => false
  | Temporary => a_exit a
  | Fatal => true
  end.

(** The results of [Accept] before the first one the loop returns on. *)
Fixpoint beforeStop (accepts : list accept) : list accept :=
  match accepts with
  | [] => []
  | a :: rest => if stops a then [] else a :: beforeStop rest
  end.

(** The connections among results of [Accept], in order. *)
Definition conns (accepts : list accept) : list nat :=
  omap (λ a, match a_result a with Conn c => Some c | _ => None end) accepts.

(** The connections handed to [h.Serve], in order. *)
Definition served (acts : list action) : list nat :=
  omap (λ a, match a with Serve c => Some c | Sleep _ => None end) acts.

(** ** [Start] and the heartbeat goroutine *)

(** A listener: the address it is bound to, whether it is a TLS listener,
    and the connection limit [netutil.LimitListener] put on it. *)
Record Listener := { l_addr : string; l_tls : bool; l_limit : option Z }.

(** What [Start] reads of [config.Context]: the listener stored under
    [netListener{}] and the integer stored under [maxConnKey{}]. *)
Record StartContext := { cx_listener : option Listener; cx_maxConn : option Z }.

(** The fields of [server.Options] that only [Start] reads; [so_TLS] is
    [config.TLSConfig != nil], [so_ctx] is [None] for a nil context. *)
Record StartOptions := {
  so_Address : string;
  so_TLS : bool;
  so_ctx : option StartContext;
  so_RegisterInterval : Z
}.

Definition getListener (o : StartOptions) : option Listener :=
  match so_ctx o with
  | None => None
  | Some cx => cx_listener cx
  end.

(** What the collaborators answer during one [Start]: [s_listen] is the
    address [tls.Listen] or [net.Listen] binds, or their error;
    [s_handlerOk] is the outcome of the assertion [hd.(Handler)] and
    [s_handlerType] what [%T] prints for [hd]. *)
Record StartEnv := {
  s_listen : res string;
  s_connect : option string;
  s_register : RegisterEnv;
  s_handlerOk : bool;
  s_handlerType : string
}.

Inductive startEvent :=
| EvListen (tls : bool) (address : string) (r : res string)
| EvLimit (c : Z)
| EvConnect (err : option string)
| EvServer (e : event)
| EvGoServe (ts : Listener)
| EvGoHeartbeat (ts : Listener).

(** What [Start] leaves: the server, the listener it holds (if it got
    one), what it did, and what it returned. *)
Record started := {
  st_server : tcpServer;
  st_listener : option Listener;
  st_events : list startEvent;
  st_result : outcome
}.

(** The first part of [Start]: the listener from the context, or a new
    one, limited when the context asks for it. *)
Definition acquireListener (config : StartOptions) (env : StartEnv)
    : res Listener * list startEvent :=
  match getListener config with
  | Some l => (Ok l, [])
  | None =>
      let ev := EvListen (so_TLS config) (so_Address config) (s_listen env) in
      match s_listen env with
      | Fail err => (Fail err, [ev])
      | Ok addr =>
          let ts := {| l_addr := addr; l_tls := so_TLS config; l_limit := None |} in
          match so_ctx config ≫= cx_maxConn with
          | Some c =>
              if (0 <? c)%Z
              then (Ok {| l_addr := addr; l_tls := so_TLS config; l_limit := Some c |},
                    [ev; EvLimit c])
              else (Ok ts, [ev])
          | None => (Ok ts, [ev])
          end
      end
  end.

(** [Start], up to the two [go] statements.  The first thing it does is
    [h.hd.Handler()], which panics without a handler.  Logging and the
    assignment to [h.opts.Address] (the address of the listener, kept here
    in [st_listener]) leave no other trace. *)
Definition Start (h : tcpServer) (config : StartOptions) (env : StartEnv) : started :=
  match hd h with
  | None => {| st_server := h; st_listener := None; st_events := []; st_result := RPanic |}
  | Some _ =>
      match acquireListener config env with
      | (Fail err, evs) =>
          {| st_server := h; st_listener := None; st_events := evs;
             st_result := RErr (ErrText err) |}
      | (Ok ts, evs) =>
          match s_connect env with
          | Some err =>
              {| st_server := h; st_listener := Some ts;
                 st_events := evs ++ [EvConnect (Some err)];
                 st_result := RErr (ErrText err) |}
          | None =>
              let '(h', revs, r) := Register h (s_register env) in
              let evs := evs ++ [EvConnect None] ++ (EvServer <$> revs) in
              match r with
              | RNil =>
                  if s_handlerOk env then
                    {| st_server := h'; st_listener := Some ts;
                       st_events := evs ++ [EvGoServe ts; EvGoHeartbeat ts];
                       st_result := RNil |}
                  else
                    {| st_server := h'; st_listener := Some ts; st_events := evs;
                       st_result := RErr (ErrText ("invalid handler " +:+ s_handlerType env)) |}
              | _ =>
                  {| st_server := h'; st_listener := Some ts; st_events := evs;
                     st_result := r |}
              end
          end
      end
  end.

(** The two [go] statements at the end of [Start]. *)
Definition isGo (e : startEvent) : bool :=
  match e with
  | EvGoServe _ | EvGoHeartbeat _ => true
  | _ => false
  end.

(** The calls that open or limit a listener. *)
Definition isListen (e : startEvent) : bool :=
  match e with
  | EvListen _ _ _ | EvLimit _ => true
  | _ => false
  end.

(** What the heartbeat goroutine receives: a tick of the ticker, or the
    channel [Stop] sends on [h.exit], with what the collaborators answer to
    the teardown. *)
Inductive hbInput :=
| HbTick (env : TickEnv)
| HbExit (closeErr : option string) (denv : DeregisterEnv) (disconnectErr : option string).

Inductive hbEvent :=
| HbServer (e : event)
| HbClose (err : option string)         (* ts.Close() *)
| HbReply (err : option string)         (* ch <- ..., what [Stop] returns *)
| HbDisconnect (err : option string).   (* config.Broker.Disconnect *)

(** The goroutine, run on what it receives.  With an interval that is not
    positive the ticker is [new(time.Ticker)], whose channel is nil: the
    tick case is never taken.  The result is the server, what was done, and
    whether the goroutine ended ([false]: it is blocked in the [select]). *)
Fixpoint heartbeat (interval : Z) (h : tcpServer) (inputs : list hbInput)
    : tcpServer * list hbEvent * bool :=
  match inputs with
  | [] => (h, [], false)
  | HbTick env :: rest =>
      if (0 <? interval)%Z then
        let '(h1, evs, _) := tick h env in
        let '(h2, evs', ended) := heartbeat interval h1 rest in
        (h2, (HbServer <$> evs) ++ evs', ended)
      else heartbeat interval h rest
  | HbExit closeErr denv disconnectErr :: _ =>
      let '(h1, evs, _) := Deregister h denv in
      (h1, [HbClose closeErr; HbReply closeErr] ++ (HbServer <$> evs)
           ++ [HbDisconnect disconnectErr], true)
  end.

(** [Stop]: what the caller gets back is what the goroutine replied. *)
Definition Stop (evs : list hbEvent) : option (option string) :=
  head (omap (λ e, match e with HbReply r => Some r | _ => None end) evs).

(** ** Sample values

    A small shop service, used to run the definitions on concrete inputs. *)

Definition contextT : rtype := Reflect.Basic "context" "Context" Reflect.Interface.
Definition stringT : rtype := Reflect.Basic "" "string" Reflect.String_.
Definition orderCreatedT : rtype := Reflect.PtrTo (Reflect.Basic "shop" "OrderCreated" Reflect.Struct).
Definition orderAuditT : rtype := Reflect.PtrTo (Reflect.Basic "shop" "OrderCreatedAudit" Reflect.Struct).
Definition legacyT : rtype := Reflect.PtrTo (Reflect.Basic "shop" "Legacy" Reflect.Struct).

(** A codec that decodes every shape but [legacyT]. *)
Definition sampleCodec : Codec :=
  {| ReadHeader := λ buf, Ok buf;
     ReadBody := λ buf rt, if decide (rt = legacyT) then Fail "cannot decode" else Ok buf |}.

Definition sampleOptions : Options :=
  {| Codecs := {[ "application/json" := sampleCodec ]}; SubWrappers := []; o_Context := "bg" |}.

Definition sampleEvent : Message :=
  {| Header := {[ "Content-Type" := "application/json"; "Trace" := "7" ]}; Body := "{}" |}.

(** A receiver type with the given methods and behaviours. *)
Definition receiver (name : string) (ms : list Reflect.Method) (beh : nat → callable)
    : subscriberValue :=
  {| sv_type := Reflect.PtrTo (Reflect.Basic "shop" name Reflect.Struct);
     sv_methods := ms; sv_func := λ _, None; sv_method := beh |}.

Definition methodOf (recv name : string) (req : rtype) : Reflect.Method :=
  {| Reflect.m_Name := name;
     Reflect.m_Type := Reflect.FuncOf "" "" [Reflect.PtrTo (Reflect.Basic "shop" recv Reflect.Struct); contextT; req]
                                      [Reflect.typeOfError] |}.

(** Topic [orders], two handlers: the primary one succeeds, the audit one
    fails. *)
Definition ordersValue : subscriberValue :=
  receiver "Orders"
    [methodOf "Orders" "Audit" orderAuditT; methodOf "Orders" "Primary" orderCreatedT]
    (λ m _, if decide (m = 0) then Some "audit store unreachable" else None).

Definition ordersSub : tcpSubscriber := newSubscriber "orders" ordersValue [].

(** Topic [orders], two handlers: the first cannot be decoded for. *)
Definition legacyValue : subscriberValue :=
  receiver "Mixed"
    [methodOf "Mixed" "Legacy" legacyT; methodOf "Mixed" "Primary" orderCreatedT]
    (λ _ _, None).

Definition legacySub : tcpSubscriber := newSubscriber "orders" legacyValue [].

(** [func(string) error]: a payload and no leading context. *)
Definition payloadOnlyFunc : subscriberValue :=
  {| sv_type := Reflect.FuncOf "" "" [stringT] [Reflect.typeOfError];
     sv_methods := []; sv_func := λ _, None; sv_method := λ _ _, None |}.

(** [func(context.Context, string) error] *)
Definition contextFunc : subscriberValue :=
  {| sv_type := Reflect.FuncOf "" "" [contextT; stringT] [Reflect.typeOfError];
     sv_methods := []; sv_func := λ _, None; sv_method := λ _ _, None |}.

(** A receiver without exported methods. *)
Definition noMethods : subscriberValue := receiver "Empty" [] (λ _ _, None).

(** A second subscriber of topic [orders]. *)
Definition auditValue : subscriberValue :=
  receiver "Audit" [methodOf "Audit" "Record" orderAuditT] (λ _ _, None).

Definition auditSub : tcpSubscriber := newSubscriber "orders" auditValue [].

Definition sampleService : Service :=
  {| svc_Name := "shop";
     svc_Nodes := [ {| n_Id := "shop-1"; n_Metadata := ∅ |} ];
     svc_Endpoints := [] |}.

Definition sampleHandler : tcpHandler :=
  NewHandler {| ho_Internal := false; ho_Metadata := [("Shop.Get", [("method", "GET")])] |} None.

(** Collaborators that always succeed; the arguments are the orders in
    which the map is visited. *)
Definition registerEnv (advertise arm : list loc) : RegisterEnv :=
  {| newService := Ok sampleService; dirRegister := None;
     orderAdvertise := advertise; orderArm := arm;
     busSubscribe := λ l, Ok {| bs_id := Pos.to_nat l; bs_topic := "orders" |} |}.

Definition deregisterEnv (order : list loc) : DeregisterEnv :=
  {| d_newService := Ok sampleService; dirDeregister := None;
     orderUnsubscribe := order; busUnsubscribe := λ _, None |}.

(** The service after [Handle], one [Subscribe] and a first [Register]. *)
Definition startedServer : tcpServer :=
  @runOps ascii_unicode (NewServer sampleOptions)
    [OpHandle sampleHandler; OpSubscribe (TcpSub 1%positive ordersSub);
     OpRegister (registerEnv [1%positive] [1%positive])].

(** A subscriber of another topic. *)
Definition paymentsSub : tcpSubscriber :=
  newSubscriber "payments" (receiver "Payments" [methodOf "Payments" "Settle" orderCreatedT] (λ _ _, None)) [].

(** A server with a handler and two subscribers, not yet registered. *)
Definition serverWith (second : tcpSubscriber) : tcpServer :=
  @runOps ascii_unicode (NewServer sampleOptions)
    [OpHandle sampleHandler; OpSubscribe (TcpSub 1%positive ordersSub);
     OpSubscribe (TcpSub 2%positive second)].

Definition temporary : accept := {| a_result := Temporary; a_exit := false |}.
Definition accepted (c : nat) : accept := {| a_result := Conn c; a_exit := false |}.

Definition fatal : accept := {| a_result := Fatal; a_exit := false |}.

(** A subscriber of topic [orders] that is not advertised. *)
Definition internalSub : tcpSubscriber :=
  newSubscriber "orders" auditValue
    [λ o, {| AutoAck := AutoAck o; Queue := "audit"; Internal := true;
             so_Context := Some "own" |}].

Definition sampleStartOptions : StartOptions :=
  {| so_Address := ":0"; so_TLS := false;
     so_ctx := Some {| cx_listener := None; cx_maxConn := Some 8%Z |};
     so_RegisterInterval := 30000000000%Z |}.

Definition sampleStartEnv (handlerOk : bool) : StartEnv :=
  {| s_listen := Ok "127.0.0.1:4000"; s_connect := None;
     s_register := registerEnv [1%positive] [1%positive];
     s_handlerOk := handlerOk; s_handlerType := "*shop.Handler" |}.

(** A server with a handler and the orders subscriber, not yet started. *)
Definition readyServer : tcpServer :=
  @runOps ascii_unicode (NewServer sampleOptions)
    [OpHandle sampleHandler; OpSubscribe (TcpSub 1%positive ordersSub)].

Definition unhealthyTick : TickEnv :=
  {| registerCheck := Some "unhealthy";
     t_deregister := deregisterEnv [1%positive];
     t_register := registerEnv [1%positive] [1%positive] |}.

(** Two wrappers: one that never calls the function it wraps, one that
    only calls it. *)
Definition blockAll : SubscriberWrapper := λ _ _ _, Some "blocked".
Definition passThrough : SubscriberWrapper := λ fn, fn.

(** A receiver with a handler method and an exported [Close()]. *)
Definition closeMethod : Reflect.Method :=
  {| Reflect.m_Name := "Close";
     Reflect.m_Type := Reflect.FuncOf "" ""
                         [Reflect.PtrTo (Reflect.Basic "shop" "Closable" Reflect.Struct)] [] |}.

Definition closableValue : subscriberValue :=
  receiver "Closable" [methodOf "Closable" "Audit" orderAuditT; closeMethod] (λ _ _, None).

Definition sampleHandle (l : loc) : brokerSubscriber :=
  {| bs_id := Pos.to_nat l; bs_topic := "orders" |}.

(** Collaborators of a [Register] during which the bus refuses the
    subscriber under the pointer 2. *)
Definition busDownEnv (advertise arm : list loc) : RegisterEnv :=
  {| newService := Ok sampleService; dirRegister := None;
     orderAdvertise := advertise; orderArm := arm;
     busSubscribe := λ l, if decide (l = 2%positive) then Fail "bus down"
                          else Ok (sampleHandle l) |}.

(** Topic [orders], three handlers: the audit and the billing one fail,
    the primary one succeeds. *)
Definition noisyValue : subscriberValue :=
  receiver "Noisy"
    [methodOf "Noisy" "Audit" orderAuditT; methodOf "Noisy" "Bill" orderCreatedT;
     methodOf "Noisy" "Primary" orderCreatedT]
    (λ m _, if decide (m = 0) then Some "audit store unreachable"
            else if decide (m = 1) then Some "billing down" else None).

Definition noisySub : tcpSubscriber := newSubscriber "orders" noisyValue [].

(** A type of the package [shop] whose name is not exported. *)
Definition hiddenT : rtype := Reflect.PtrTo (Reflect.Basic "shop" "order" Reflect.Struct).

(** [func(context.Context, *order) error] *)
Definition hiddenFunc : subscriberValue :=
  {| sv_type := Reflect.FuncOf "" "" [contextT; hiddenT] [Reflect.typeOfError];
     sv_methods := []; sv_func := λ _, None; sv_method := λ _ _, None |}.

(** A receiver whose second method takes the unexported payload. *)
Definition hiddenValue : subscriberValue :=
  receiver "Orders"
    [methodOf "Orders" "First" orderCreatedT; methodOf "Orders" "Second" hiddenT]
    (λ _ _, None).

(** * Properties *)

(** ** The dispatcher *)

Section Dispatch.
Variables (cf : Codec) (sb : tcpSubscriber) (opts : Options).
Variables (ctx : gmap string string) (ct : string) (msg : Message).

(** When every handler decodes, the first loop starts one goroutine per
    handler, in handler order. *)
Lemma launchAll_all (hs : list handler) (outs : list (option string)) (i : nat) :
  Forall2 (λ h o, launch cf sb opts ctx ct msg h = Launched o) hs outs →
  launchAll cf sb opts ctx ct msg i hs = (zip (seq i (length hs)) outs, None).
Proof.
  intros HF. revert i. induction HF as [|h o hs outs Hh _ IH]; intros i; [done|].
  cbn [launchAll length seq zip zip_with]. by rewrite Hh, IH.
Qed.

(** When handler number [length pre] is the first whose decoding fails, the
    loop ends there with that error. *)
Lemma launchAll_abort (pre post : list handler) (h : handler)
    (outs : list (option string)) (e : string) (i : nat) :
  Forall2 (λ h o, launch cf sb opts ctx ct msg h = Launched o) pre outs →
  launch cf sb opts ctx ct msg h = Abort e →
  launchAll cf sb opts ctx ct msg i (pre ++ h :: post)
  = (zip (seq i (length pre)) outs, Some (RErr (ErrText e))).
Proof.
  intros HF Hh. revert i. induction HF as [|h' o hs outs' Hh' _ IH]; intros i.
  - cbn. by rewrite Hh.
  - cbn [app launchAll length seq zip zip_with]. by rewrite Hh', IH.
Qed.

End Dispatch.

Lemma omap_seq_lookup_app {A B} (g : A → option B) (pre l : list A) :
  omap (λ k, (pre ++ l) !! k ≫= g) (seq (length pre) (length l)) = omap g l.
Proof.
  unfold omap.
  revert pre. induction l as [|x l IH]; intros pre; [done|].
  simpl. rewrite list_lookup_middle by done. simpl.
  specialize (IH (pre ++ [x])). rewrite <- app_assoc, length_app, Nat.add_1_r in IH.
  simpl in IH. by rewrite IH.
Qed.

Lemma omap_seq_lookup {A B} (g : A → option B) (l : list A) :
  omap (λ k, l !! k ≫= g) (seq 0 (length l)) = omap g l.
Proof. apply (omap_seq_lookup_app g []). Qed.

Lemma omap_snd_zip_seq {A} (l : list (option A)) (i : nat) :
  omap snd (zip (seq i (length l)) l) = omap id l.
Proof.
  unfold omap. revert i. induction l as [|x l IH]; intros i; [done|].
  simpl. by rewrite IH.
Qed.

Lemma length_zip_seq {A} (l : list A) (i : nat) :
  length (zip (seq i (length l)) l) = length l.
Proof. rewrite length_zip_with, length_seq. lia. Qed.

Lemma fst_zip_seq {A} (l : list A) (i : nat) :
  (zip (seq i (length l)) l).*1 = seq i (length l).
Proof. apply fst_zip. by rewrite length_seq. Qed.

(** The messages the second loop gathers are those of the failing
    goroutines, in the order they finished. *)
Lemma collect_Permutation (outs : list (option string)) (sched : list nat) :
  sched ≡ₚ seq 0 (length outs) →
  collect (zip (seq 0 (length outs)) outs) sched ≡ₚ omap id outs.
Proof.
  intros Hs. unfold collect. rewrite Hs.
  pose proof (omap_seq_lookup snd (zip (seq 0 (length outs)) outs)) as E.
  rewrite length_zip_seq in E. by rewrite E, omap_snd_zip_seq.
Qed.

Lemma strings_Join_singleton (x sep : string) : strings_Join [x] sep = x.
Proof. done. Qed.

Lemma strings_Join_concat (elems : list string) (sep : string) :
  strings_Join elems sep = String.concat sep elems.
Proof.
  induction elems as [|x [|y rest] IH]; [done|done|].
  change (strings_Join (x :: y :: rest) sep) with (x +:+ sep +:+ strings_Join (y :: rest) sep).
  change (String.concat sep (x :: y :: rest)) with (x +:+ sep +:+ String.concat sep (y :: rest)).
  by rewrite IH.
Qed.

Lemma lookup_zip_seq_snd {A} (l : list (option A)) (i k : nat) :
  zip (seq i (length l)) l !! k ≫= snd = l !! k ≫= id.
Proof.
  revert i k. induction l as [|x l IH]; intros i [|k]; cbn; [done..|]. apply IH.
Qed.

(** What the second loop gathers, read off the handlers' results: the
    messages of the failing ones, in the order they finished. *)
Lemma collect_lookup (outs : list (option string)) (sched : list nat) :
  collect (zip (seq 0 (length outs)) outs) sched = omap (λ k, outs !! k ≫= id) sched.
Proof.
  unfold collect. unfold omap. induction sched as [|k sched IH]; [done|]. cbn.
  by rewrite lookup_zip_seq_snd, IH.
Qed.

Section DispatchClaims.
Variables (srv : Options) (sb : tcpSubscriber) (opts : Options).
Variables (sched : list nat) (p : Message) (cf : Codec).

Let ct := default "" (Header p !! "Content-Type").
Let ctx := delete "Content-Type" (Header p).

(** C1. One dispatch over N handlers, for an event whose content type has
    a codec and whose body decodes for every handler.  [outs] are the
    results of the N invocations: handler [h] is called, through the
    wrappers, with the receiver (for a method), the context made of the
    headers but the content type, and the payload decoded for it.  With M
    the number of errors among them: one goroutine is started per handler;
    in any order of completion the dispatch succeeds iff M = 0; otherwise it
    fails with the message "subscriber error: " followed by the M failing
    messages, in the order the goroutines finished, with a line feed
    between one and the next. *)
Theorem dispatch_aggregates (outs : list (option string)) :
  newCodec srv ct = Some cf →
  Forall2 (λ h o, ∃ rt buf req,
             reqType h = Some rt
             ∧ ReadHeader cf (Body p) = Ok buf
             ∧ ReadBody cf buf rt = Ok req
             ∧ o = foldr (λ w fn, w fn)
                     (λ c m, method h
                        ((if decide (Reflect.kind (typ sb) ≠ Reflect.Func) then [VRcvr] else [])
                         ++ (if ctxType h is Some _ then [VCtx c] else [])
                         ++ [VPayload (tm_payload m)]))
                     (SubWrappers opts) ctx
                     {| tm_topic := topic sb; tm_contentType := ct; tm_payload := req;
                        tm_header := Header p; tm_body := Body p |})
    (handlers sb) outs →
  sched ≡ₚ seq 0 (length (handlers sb)) →
  let d := createSubHandler srv sb opts sched p in
  let failing := omap id outs in
  let msgs := omap (λ k, outs !! k ≫= id) sched in
  (d_started d).*1 = seq 0 (length (handlers sb))
  ∧ d_started d = zip (seq 0 (length (handlers sb))) outs
  ∧ msgs ≡ₚ failing
  ∧ (d_result d = RNil ↔ length failing = 0)
  ∧ (length failing ≠ 0 →
     d_result d
     = RErr (ErrText ("subscriber error: "
                      +:+ String.concat (String (ascii_of_nat 10) EmptyString) msgs))).
Proof.
  intros Hcf HF' Hs d failing msgs.
  assert (HF : Forall2 (λ h o, launch cf sb opts ctx ct p h = Launched o) (handlers sb) outs).
  { eapply Forall2_impl; [exact HF'|]. intros h o (rt & buf & req & Hrt & Hh & Hb & ->).
    unfold launch. by rewrite Hrt, Hh, Hb. }
  pose proof (Forall2_length _ _ _ HF) as Hlen.
  assert (Hd : d = {| d_result :=
                        if decide (0 < length msgs)
                        then RErr (ErrText ("subscriber error: " +:+ strings_Join msgs newline))
                        else RNil;
                      d_started := zip (seq 0 (length outs)) outs |}).
  { subst d msgs. unfold createSubHandler. fold ct. rewrite Hcf. fold ctx.
    rewrite (launchAll_all _ _ _ _ _ _ _ outs) by done.
    by rewrite Hlen, collect_lookup. }
  rewrite Hlen in Hs |- *.
  assert (Hperm : msgs ≡ₚ failing).
  { subst msgs. rewrite <- collect_lookup. by apply collect_Permutation. }
  pose proof (Permutation_length Hperm) as Hpl.
  rewrite Hd. cbn [d_result d_started]. split_and!.
  - apply fst_zip_seq.
  - done.
  - done.
  - case_decide; split; intros; try done; lia.
  - intros Hne. rewrite decide_True by lia. by rewrite strings_Join_concat.
Qed.

(** C6, as the code has it. When decoding fails for a handler (the header
    frame or the body), the whole dispatch returns that error at once: the
    handlers after it are neither decoded for nor invoked, and the results
    of the goroutines already started for the handlers before it are not
    collected. *)
Theorem decode_failure_aborts_dispatch (pre post : list handler) (h : handler)
    (rt : rtype) (outs : list (option string)) (e : string) :
  newCodec srv ct = Some cf →
  handlers sb = pre ++ h :: post →
  Forall2 (λ h o, launch cf sb opts ctx ct p h = Launched o) pre outs →
  reqType h = Some rt →
  (ReadHeader cf (Body p) = Fail e ∨
   ∃ buf, ReadHeader cf (Body p) = Ok buf ∧ ReadBody cf buf rt = Fail e) →
  let d := createSubHandler srv sb opts sched p in
  d_result d = RErr (ErrText e) ∧ (d_started d).*1 = seq 0 (length pre).
Proof.
  intros Hcf Hhs HF Hrt Hdec d.
  assert (Hh : launch cf sb opts ctx ct p h = Abort e).
  { unfold launch. rewrite Hrt. destruct Hdec as [->|(buf & -> & ->)]; done. }
  subst d. unfold createSubHandler. fold ct. rewrite Hcf. fold ctx.
  rewrite Hhs, (launchAll_abort _ _ _ _ _ _ _ _ _ outs e) by done.
  cbn [d_result d_started]. split; [done|].
  pose proof (Forall2_length _ _ _ HF) as ->. apply fst_zip_seq.
Qed.

End DispatchClaims.

(** Three handlers on the orders topic: the audit and the billing handler
    fail, the primary one succeeds; the primary goroutine finishes first and
    the audit one last. *)
Lemma dispatch_aggregates_witness :
  let d := createSubHandler sampleOptions noisySub sampleOptions [2; 1; 0] sampleEvent in
  (d_started d).*1 = [0; 1; 2]
  ∧ d_started d = [(0, Some "audit store unreachable"); (1, Some "billing down"); (2, None)]
  ∧ ["billing down"; "audit store unreachable"] ≡ₚ ["audit store unreachable"; "billing down"]
  ∧ (d_result d = RNil ↔ 2 = 0)
  ∧ (2 ≠ 0 →
     d_result d
     = RErr (ErrText ("subscriber error: billing down"
                      +:+ String (ascii_of_nat 10) "audit store unreachable"))).
Proof.
  refine (dispatch_aggregates sampleOptions noisySub sampleOptions [2; 1; 0] sampleEvent
            sampleCodec [Some "audit store unreachable"; Some "billing down"; None] _ _ _).
  - vm_compute. reflexivity.
  - repeat (constructor; [eexists _, "{}", "{}"; split_and!; vm_compute; reflexivity|]).
    constructor.
  - refine (bool_decide_unpack _ _). vm_compute. exact I.
Defined.

Example dispatch_two_failures :
  d_result (createSubHandler sampleOptions noisySub sampleOptions [2; 1; 0] sampleEvent)
  = RErr (ErrText ("subscriber error: billing down"
                   +:+ String (ascii_of_nat 10) "audit store unreachable"))
  ∧ d_result (createSubHandler sampleOptions noisySub sampleOptions [0; 1; 2] sampleEvent)
    = RErr (ErrText ("subscriber error: audit store unreachable"
                     +:+ String (ascii_of_nat 10) "billing down")).
Proof. split; vm_compute; reflexivity. Qed.

Example dispatch_orders :
  d_result (createSubHandler sampleOptions ordersSub sampleOptions [1; 0] sampleEvent)
  = RErr (ErrText "subscriber error: audit store unreachable").
Proof. vm_compute. reflexivity. Qed.

Lemma decode_failure_aborts_dispatch_witness :
  let d := createSubHandler sampleOptions legacySub sampleOptions [0; 1] sampleEvent in
  d_result d = RErr (ErrText "cannot decode") ∧ (d_started d).*1 = seq 0 0.
Proof.
  apply (decode_failure_aborts_dispatch sampleOptions legacySub sampleOptions [0; 1]
           sampleEvent sampleCodec [] (drop 1 (handlers legacySub))
           (methodHandler legacyValue 0 (methodOf "Mixed" "Legacy" legacyT)) legacyT []).
  - vm_compute. reflexivity.
  - reflexivity.
  - constructor.
  - reflexivity.
  - right. exists "{}". split; vm_compute; reflexivity.
Defined.

(** C6, as stated, fails: of two handlers the first cannot be decoded for;
    the second decodes on its own, yet the dispatch starts no goroutine at
    all and returns the decode error. *)
Lemma decode_failure_counterexample :
  let d := createSubHandler sampleOptions legacySub sampleOptions [0; 1] sampleEvent in
  length (handlers legacySub) = 2
  ∧ (∃ h, handlers legacySub !! 1 = Some h ∧
          launch sampleCodec legacySub sampleOptions
            (delete "Content-Type" (Header sampleEvent)) "application/json" sampleEvent h
          = Launched None)
  ∧ d_started d = []
  ∧ d_result d = RErr (ErrText "cannot decode").
Proof.
  split_and!; [reflexivity| |vm_compute; reflexivity..].
  eexists. split; [reflexivity|]. vm_compute. reflexivity.
Qed.

(** ** Validation and [Subscribe] *)

Section SubscribeClaims.
Context `{Unicode}.

Lemma validateFunc_None (typ : rtype) :
  validateFunc typ = None ↔ requiredShape 1 typ.
Proof.
  unfold validateFunc, requiredShape. split.
  - destruct (Reflect.ins typ) as [|c [|a [|]]] eqn:Hi; try done.
    destruct (isExportedOrBuiltinType a) eqn:Ha; [|done]. cbn.
    destruct (Reflect.outs typ) as [|r [|]] eqn:Ho; try done.
    case_decide; [|done]. subst. intros _. by exists [c], a.
  - intros (pre & a & Hi & Hl & Ha & Ho). destruct pre as [|c [|]]; try done.
    rewrite Hi. cbn. rewrite Ha, Ho. cbn. by rewrite decide_True.
Qed.

Lemma validateMethod_None (name : string) (mt : Reflect.Method) :
  validateMethod name mt = None ↔ requiredShape 2 (Reflect.m_Type mt).
Proof.
  unfold validateMethod, requiredShape. split.
  - destruct (Reflect.ins _) as [|r [|c [|a [|]]]] eqn:Hi; try done.
    destruct (isExportedOrBuiltinType a) eqn:Ha; [|done]. cbn.
    destruct (Reflect.outs _) as [|r' [|]] eqn:Ho; try done.
    case_decide; [|done]. subst. intros _. by exists [r; c], a.
  - intros (pre & a & Hi & Hl & Ha & Ho). destruct pre as [|r [|c [|]]]; try done.
    cbn zeta. rewrite Hi. cbn. rewrite Ha, Ho. cbn. by rewrite decide_True.
Qed.

Lemma validateMethods_None (name : string) (ms : list Reflect.Method) :
  validateMethods name ms = None ↔ Forall (λ mt, requiredShape 2 (Reflect.m_Type mt)) ms.
Proof.
  induction ms as [|mt ms IH]; cbn.
  - split; [constructor|done].
  - rewrite Forall_cons, <- IH, <- (validateMethod_None name).
    destruct (validateMethod name mt); [|tauto].
    split; [done|]. by intros [? _].
Qed.

Lemma validateFunc_names (typ : rtype) (e : error) :
  validateFunc typ = Some e → errorName e = Some "Func".
Proof.
  unfold validateFunc. repeat case_match; intros; by simplify_eq.
Qed.

(** A subscriber [newSubscriber] built and [validateSubscriber] accepts has
    a request type and a context type in every handler: the one-parameter
    cases of [newSubscriber] never pass validation. *)
Lemma validated_handlers (t : string) (v : subscriberValue)
    (os : list (SubscriberOptions → SubscriberOptions)) :
  validateSubscriber (newSubscriber t v os) = None →
  Forall (λ h, is_Some (reqType h) ∧ is_Some (ctxType h)) (handlers (newSubscriber t v os)).
Proof.
  unfold validateSubscriber, newSubscriber.
  destruct (decide (Reflect.kind (sv_type v) = Reflect.Func)) as [Hk|Hk]; cbn.
  - rewrite decide_True by done. rewrite validateFunc_None.
    intros (pre & a & Hi & Hl & _ & _). destruct pre as [|c [|]]; try done.
    repeat constructor; unfold funcHandler; rewrite Hi; cbn; eauto.
  - rewrite decide_False by done. rewrite validateMethods_None.
    intros HF. apply Forall_lookup_2. intros i h Hh.
    apply list_lookup_imap_Some in Hh as (mt & Hmt & ->).
    pose proof (Forall_lookup_1 _ _ _ _ HF Hmt) as (pre & a & Hi & Hl & _ & _).
    destruct pre as [|r [|c [|]]]; try done.
    unfold methodHandler. rewrite Hi. cbn. eauto.
Qed.

(** [isExportedOrBuiltinType] against the words of its comment. *)
Lemma isExportedOrBuiltinType_pointee (t : rtype) :
  isExportedOrBuiltinType t = true ↔ exportedOrBuiltin t.
Proof.
  unfold exportedOrBuiltin.
  induction t as [p n k|e IH|p n i o]; cbn; [|exact IH|];
    unfold isExported; destruct (utf8_DecodeRuneInString n) as [r w]; cbn;
    by rewrite orb_true_iff, bool_decide_eq_true.
Qed.

Lemma requiredShape_canonical (leading : nat) (t : rtype) :
  requiredShape leading t ↔ canonicalShape leading t.
Proof.
  unfold requiredShape, canonicalShape.
  split; intros (pre & a & Hi & Hl & Ha & Ho); exists pre, a; split_and!; try done;
    by apply isExportedOrBuiltinType_pointee.
Qed.

Lemma validateFunc_Some (typ : rtype) (e : error) :
  validateFunc typ = Some e → rejection 1 "Func" "Func" typ e.
Proof.
  unfold validateFunc.
  destruct (Reflect.ins typ) as [|c [|a [|]]] eqn:Hi;
    try (intros [= <-]; apply RejectNumArgs; unfold Reflect.NumIn; by rewrite Hi).
  destruct (isExportedOrBuiltinType a) eqn:Ha; cbn.
  - apply isExportedOrBuiltinType_pointee in Ha.
    destruct (Reflect.outs typ) as [|r [|]] eqn:Ho;
      try (intros [= <-]; apply (RejectNumOuts _ _ _ _ [c] a); try done;
           unfold Reflect.NumOut; by rewrite Ho).
    case_decide; [done|]. intros [= <-]. by apply (RejectResult _ _ _ _ [c] a r).
  - intros [= <-]. apply (RejectArgType _ _ _ _ [c] a); try done.
    rewrite <- isExportedOrBuiltinType_pointee. by rewrite Ha.
Qed.

Lemma validateMethod_Some (name : string) (mt : Reflect.Method) (e : error) :
  validateMethod name mt = Some e →
  rejection 2 (name +:+ "." +:+ Reflect.m_Name mt) name (Reflect.m_Type mt) e.
Proof.
  unfold validateMethod. cbn zeta.
  destruct (Reflect.ins (Reflect.m_Type mt)) as [|r [|c [|a [|]]]] eqn:Hi;
    try (intros [= <-]; apply RejectNumArgs; unfold Reflect.NumIn; by rewrite Hi).
  destruct (isExportedOrBuiltinType a) eqn:Ha; cbn.
  - apply isExportedOrBuiltinType_pointee in Ha.
    destruct (Reflect.outs (Reflect.m_Type mt)) as [|r' [|]] eqn:Ho;
      try (intros [= <-]; apply (RejectNumOuts _ _ _ _ [r; c] a); try done;
           unfold Reflect.NumOut; by rewrite Ho).
    case_decide; [done|]. intros [= <-]. by apply (RejectResult _ _ _ _ [r; c] a r').
  - intros [= <-]. apply (RejectArgType _ _ _ _ [r; c] a); try done.
    rewrite <- isExportedOrBuiltinType_pointee. by rewrite Ha.
Qed.

(** The loop over the method set stops at the first method that fails. *)
Lemma validateMethods_Some (name : string) (ms : list Reflect.Method) (e : error) :
  validateMethods name ms = Some e →
  ∃ pre mt post, ms = pre ++ mt :: post
                 ∧ validateMethods name pre = None
                 ∧ validateMethod name mt = Some e.
Proof.
  induction ms as [|m ms IH]; [done|]. cbn.
  destruct (validateMethod name m) as [e'|] eqn:Hm.
  - intros [= ->]. by exists [], m, ms.
  - intros (pre & mt & post & -> & Hpre & Hmt)%IH.
    exists (m :: pre), mt, post. cbn. by rewrite Hm.
Qed.

Lemma validateMethods_app (name : string) (pre post : list Reflect.Method) :
  validateMethods name pre = None →
  validateMethods name (pre ++ post) = validateMethods name post.
Proof.
  induction pre as [|m pre IH]; [done|]. cbn.
  destruct (validateMethod name m); [done|]. exact IH.
Qed.

(** C7, as the code has it. For a subscriber with a handler that is not
    yet in the registry.  A function is accepted exactly when it has the
    shape with the leading context parameter: two parameters, the second of
    an exported or builtin type, and the single result [error]; a receiver
    exactly when every method of its method set has that shape after the
    receiver.  A function with another number of parameters, so one with
    the payload parameter alone, is rejected with the
    wrong-number-of-arguments error, which names the handler and the
    parameter count; so is a receiver whose first method not of the shape
    has another number of parameters.  Every rejection leaves the server as
    it was, and its error is the one of the first handler that is not of
    the shape: the errors about the counts and the result name the handler
    ([Func], or [Receiver.Method]); the error about the payload type names
    [Func] for a function and, for a method, the type of the receiver
    only. *)
Theorem subscribe_requires_leading_context (h : tcpServer) (l : loc) (sub : tcpSubscriber) :
  let typ := sv_type (subscriber sub) in
  let ms := sv_methods (subscriber sub) in
  let name := indirectName typ in
  let res := Subscribe h (TcpSub l sub) in
  handlers sub ≠ [] →
  subscribers h !! l = None →
  (Reflect.kind typ = Reflect.Func →
     (res.2 = None ↔ canonicalShape 1 typ)
     ∧ (Reflect.NumIn typ ≠ 2 →
        res = (h, Some (ErrWrongNumArgs "Func" (Reflect.NumIn typ))))
     ∧ (∀ e, res.2 = Some e → res.1 = h ∧ rejection 1 "Func" "Func" typ e))
  ∧ (Reflect.kind typ ≠ Reflect.Func →
     (res.2 = None ↔ Forall (λ mt, canonicalShape 2 (Reflect.m_Type mt)) ms)
     ∧ (∀ pre mt post,
          ms = pre ++ mt :: post →
          Forall (λ m, canonicalShape 2 (Reflect.m_Type m)) pre →
          Reflect.NumIn (Reflect.m_Type mt) ≠ 3 →
          res = (h, Some (ErrWrongNumArgs (name +:+ "." +:+ Reflect.m_Name mt)
                            (Reflect.NumIn (Reflect.m_Type mt)))))
     ∧ (∀ e, res.2 = Some e →
          res.1 = h
          ∧ ∃ pre mt post,
              ms = pre ++ mt :: post
              ∧ Forall (λ m, canonicalShape 2 (Reflect.m_Type m)) pre
              ∧ rejection 2 (name +:+ "." +:+ Reflect.m_Name mt) name (Reflect.m_Type mt) e)).
Proof.
  intros typ ms name res Hh Hl.
  assert (Hn : length (handlers sub) ≠ 0) by (by destruct (handlers sub)).
  assert (Hres : res = match validateSubscriber sub with
                       | Some e => (h, Some e)
                       | None => (set_subscribers h (<[l := (sub, [])]> (subscribers h)), None)
                       end).
  { subst res. unfold Subscribe. rewrite decide_False by done. by rewrite Hl. }
  assert (Hcan : ∀ l', validateMethods name l' = None
                       ↔ Forall (λ mt, canonicalShape 2 (Reflect.m_Type mt)) l').
  { intros l'. rewrite validateMethods_None. apply Forall_proper; [|done].
    intros mt. apply requiredShape_canonical. }
  rewrite Hres. split; intros Hk.
  - assert (Hv : validateSubscriber sub = validateFunc typ).
    { unfold validateSubscriber. fold typ. by rewrite decide_True. }
    rewrite Hv. split_and!.
    + rewrite <- requiredShape_canonical, <- validateFunc_None.
      by destruct (validateFunc typ).
    + intros Hin. unfold validateFunc, Reflect.NumIn in *.
      by destruct (Reflect.ins typ) as [|c [|a [|]]].
    + intros e. destruct (validateFunc typ) eqn:Hf; [|done]. cbn. intros [= ->].
      eauto using validateFunc_Some.
  - assert (Hv : validateSubscriber sub = validateMethods name ms).
    { unfold validateSubscriber. fold typ. by rewrite decide_False. }
    rewrite Hv. split_and!.
    + rewrite <- Hcan. by destruct (validateMethods name ms).
    + intros pre mt post Hms Hpre Hin. apply Hcan in Hpre.
      rewrite Hms, (validateMethods_app _ _ _ Hpre). cbn.
      unfold validateMethod, Reflect.NumIn in *. cbn zeta.
      by destruct (Reflect.ins (Reflect.m_Type mt)) as [|r [|c [|a [|]]]].
    + intros e. destruct (validateMethods name ms) eqn:Hf; [|done]. cbn. intros [= ->].
      split; [done|]. apply validateMethods_Some in Hf as (pre & mt & post & Hms & Hpre & Hmt).
      exists pre, mt, post. split_and!; [done|by apply Hcan|by apply validateMethod_Some].
Qed.

(** The same for a subscriber that is a receiver with methods: every
    method must take the receiver, the context and the payload. *)
Lemma validateSubscriber_methods (sub : tcpSubscriber) :
  Reflect.kind (sv_type (subscriber sub)) ≠ Reflect.Func →
  validateSubscriber sub = None
  ↔ Forall (λ mt, requiredShape 2 (Reflect.m_Type mt)) (sv_methods (subscriber sub)).
Proof.
  intros Hk. unfold validateSubscriber. rewrite decide_False by done.
  apply validateMethods_None.
Qed.

Lemma subscribe_present (h : tcpServer) (l : loc) (sub : tcpSubscriber) :
  handlers sub ≠ [] → validateSubscriber sub = None →
  is_Some (subscribers h !! l) →
  Subscribe h (TcpSub l sub) = (h, Some ErrAlreadyExists).
Proof.
  intros Hh Hv [v Hl]. unfold Subscribe.
  rewrite decide_False by (by destruct (handlers sub)). by rewrite Hv, Hl.
Qed.

Lemma subscribe_fresh (h : tcpServer) (l : loc) (sub : tcpSubscriber) :
  handlers sub ≠ [] → validateSubscriber sub = None →
  subscribers h !! l = None →
  Subscribe h (TcpSub l sub)
  = (set_subscribers h (<[l := (sub, [])]> (subscribers h)), None).
Proof.
  intros Hh Hv Hl. unfold Subscribe.
  rewrite decide_False by (by destruct (handlers sub)). by rewrite Hv, Hl.
Qed.

End SubscribeClaims.

(** ** The registry across operations *)

Lemma keeps_refl (m : registry) : keeps m m.
Proof. by intros l sub. Qed.

Lemma keeps_trans (m1 m2 m3 : registry) : keeps m1 m2 → keeps m2 m3 → keeps m1 m3.
Proof. intros H12 H23 l sub Hl. eauto. Qed.

Lemma keeps_insert (m : registry) (l : loc) (sb : tcpSubscriber) (x y : list brokerSubscriber) :
  m !! l = Some (sb, x) → keeps m (<[l := (sb, y)]> m).
Proof.
  intros Hl k sub Hk. destruct (decide (k = l)) as [->|Hne].
  - rewrite lookup_insert_eq. rewrite Hl in Hk. done.
  - by rewrite lookup_insert_ne.
Qed.

Lemma keeps_insert_fresh (m : registry) (l : loc) (v : tcpSubscriber * list brokerSubscriber) :
  m !! l = None → keeps m (<[l := v]> m).
Proof.
  intros Hl k sub Hk. destruct (decide (k = l)) as [->|Hne].
  - by rewrite Hl in Hk.
  - by rewrite lookup_insert_ne.
Qed.

Lemma singleBinding_insert (m : registry) (l : loc) (v : tcpSubscriber * list brokerSubscriber) :
  length v.2 ≤ 1 → singleBinding m → singleBinding (<[l := v]> m).
Proof. intros Hv Hm. by apply map_Forall_insert_2. Qed.

Lemma armAll_keeps config busSub (order : list loc) (m : registry) :
  keeps m (armAll config busSub m order).1.1.
Proof.
  revert m. induction order as [|l order IH]; intros m; cbn; [apply keeps_refl|].
  destruct (m !! l) as [[sb x]|] eqn:Hl; [|apply IH].
  destruct (busSub l) as [sub|err]; [|apply keeps_refl].
  specialize (IH (<[l := (sb, [sub])]> m)).
  destruct (armAll _ _ _ order) as [[m' evs] e]. cbn in *.
  eapply keeps_trans; [|exact IH]. by eapply keeps_insert.
Qed.

Lemma armAll_singleBinding config busSub (order : list loc) (m : registry) :
  singleBinding m → singleBinding (armAll config busSub m order).1.1.
Proof.
  revert m. induction order as [|l order IH]; intros m Hm; cbn; [done|].
  destruct (m !! l) as [[sb x]|] eqn:Hl; [|by apply IH].
  destruct (busSub l) as [sub|err]; [|done].
  specialize (IH (<[l := (sb, [sub])]> m)).
  destruct (armAll _ _ _ order) as [[m' evs] e]. cbn in *.
  apply IH. by apply singleBinding_insert.
Qed.

Lemma unsubscribeAll_keeps unsub (order : list loc) (m : registry) :
  keeps m (unsubscribeAll unsub m order).1.
Proof.
  revert m. induction order as [|l order IH]; intros m; cbn; [apply keeps_refl|].
  destruct (m !! l) as [[sb x]|] eqn:Hl; [|apply IH].
  specialize (IH (<[l := (sb, [])]> m)).
  destruct (unsubscribeAll _ _ order) as [m' evs]. cbn in *.
  eapply keeps_trans; [|exact IH]. by eapply keeps_insert.
Qed.

Lemma unsubscribeAll_singleBinding unsub (order : list loc) (m : registry) :
  singleBinding m → singleBinding (unsubscribeAll unsub m order).1.
Proof.
  revert m. induction order as [|l order IH]; intros m Hm; cbn; [done|].
  destruct (m !! l) as [[sb x]|] eqn:Hl; [|by apply IH].
  specialize (IH (<[l := (sb, [])]> m)).
  destruct (unsubscribeAll _ _ order) as [m' evs]. cbn in *.
  apply IH. apply singleBinding_insert; [cbn; lia|done].
Qed.

(** The state a [Register] leaves: the one it found, that one with some
    subscribers armed (a [Subscribe] on the bus failed), or the registered
    one. *)
Lemma Register_state (h : tcpServer) (env : RegisterEnv) :
  let m := (armAll (s_opts h) (busSubscribe env) (subscribers h) (orderArm env)).1.1 in
  (Register h env).1.1 = h
  ∨ (Register h env).1.1 = set_subscribers h m
  ∨ ∃ svc, is_Some (hd h) ∧
      (Register h env).1.1
      = {| s_opts := s_opts h; hd := hd h; subscribers := m;
           registered := true; rsvc := Some svc |}.
Proof.
  unfold Register.
  destruct (hd h) as [handler|] eqn:Hhd; [|by left].
  destruct (rsvc h) as [svc|]; [by destruct (dirRegister env); left|].
  destruct (newService env) as [svc0|err]; [|by left].
  destruct (setNodeMetadata _ _ svc0 ≫= _) as [svc|]; [|by left].
  destruct (dirRegister env); [by left|].
  destruct (registered h); [by left|].
  destruct (armAll _ _ _ _) as [[m evs] [err|]]; cbn.
  - by right; left.
  - right; right. eexists. split; [by eexists|done].
Qed.

Lemma Register_keeps (h : tcpServer) (env : RegisterEnv) :
  keeps (subscribers h) (subscribers (Register h env).1.1).
Proof.
  destruct (Register_state h env) as [->|[->|(svc & _ & ->)]]; cbn;
    auto using keeps_refl, armAll_keeps.
Qed.

Lemma Register_wellFormed (h : tcpServer) (env : RegisterEnv) :
  wellFormed h → wellFormed (Register h env).1.1.
Proof.
  intros [Hr Hs].
  destruct (Register_state h env) as [->|[->|(svc & Hhd & ->)]]; split; cbn;
    eauto using armAll_singleBinding.
Qed.

Lemma Deregister_keeps (h : tcpServer) (env : DeregisterEnv) :
  keeps (subscribers h) (subscribers (Deregister h env).1.1).
Proof.
  unfold Deregister.
  pose proof (unsubscribeAll_keeps (busUnsubscribe env) (orderUnsubscribe env) (subscribers h)) as Ha.
  repeat case_match; cbn; try apply keeps_refl; by simplify_eq.
Qed.

Lemma Deregister_wellFormed (h : tcpServer) (env : DeregisterEnv) :
  wellFormed h → wellFormed (Deregister h env).1.1.
Proof.
  intros [Hr Hs]. unfold Deregister.
  pose proof (unsubscribeAll_singleBinding (busUnsubscribe env) (orderUnsubscribe env) _ Hs) as Ha.
  repeat case_match; cbn; try (by split); simplify_eq; cbn in *; split; cbn; eauto; done.
Qed.

(** A tick is a [Deregister] followed by a [Register], a [Register]
    alone, or nothing. *)
Lemma tick_cases (h : tcpServer) (env : TickEnv) :
  (tick h env).1.1 = (Register (Deregister h (t_deregister env)).1.1 (t_register env)).1.1
  ∨ (tick h env).1.1 = (Register h (t_register env)).1.1
  ∨ (tick h env).1.1 = h.
Proof.
  unfold tick. destruct (registerCheck env), (registered h); cbn.
  - left. destruct (Deregister _ _) as [[h1 e1] r1]. cbn.
    by destruct (Register h1 _) as [[h2 e2] r2].
  - by right; right.
  - right; left. by destruct (Register h _) as [[h2 e2] r2].
  - right; left. by destruct (Register h _) as [[h2 e2] r2].
Qed.

Section RunsFacts.
Context `{Unicode}.

Lemma Subscribe_keeps (h : tcpServer) (sb : Subscriber) :
  keeps (subscribers h) (subscribers (Subscribe h sb).1).
Proof.
  unfold Subscribe. repeat case_match; cbn; try apply keeps_refl.
  by apply keeps_insert_fresh.
Qed.

Lemma Subscribe_wellFormed (h : tcpServer) (sb : Subscriber) :
  wellFormed h → wellFormed (Subscribe h sb).1.
Proof.
  intros [Hr Hs]. unfold Subscribe. repeat case_match; cbn; try (by split).
  split; [done|]. cbn. apply singleBinding_insert; [cbn; lia|done].
Qed.

Lemma runOp_keeps (h : tcpServer) (o : op) :
  keeps (subscribers h) (subscribers (runOp h o)).
Proof.
  destruct o as [hdl|sb|env|env|env]; cbn.
  - apply keeps_refl.
  - apply Subscribe_keeps.
  - apply Register_keeps.
  - apply Deregister_keeps.
  - destruct (tick_cases h env) as [->|[->| ->]];
      eauto using keeps_refl, keeps_trans, Register_keeps, Deregister_keeps.
Qed.

Lemma runOp_wellFormed (h : tcpServer) (o : op) :
  wellFormed h → wellFormed (runOp h o).
Proof.
  intros Hw. destruct o as [hdl|sb|env|env|env]; cbn.
  - destruct Hw as [Hr Hs]. split; [|done]. cbn. intros Hreg.
    destruct (Hr Hreg) as [? _]. eauto.
  - by apply Subscribe_wellFormed.
  - by apply Register_wellFormed.
  - by apply Deregister_wellFormed.
  - destruct (tick_cases h env) as [->|[->| ->]];
      eauto using Register_wellFormed, Deregister_wellFormed.
Qed.

Lemma runOps_keeps (ops : list op) (h : tcpServer) :
  keeps (subscribers h) (subscribers (runOps h ops)).
Proof.
  revert h. induction ops as [|o ops IH]; intros h; cbn; [apply keeps_refl|].
  eapply keeps_trans; [apply runOp_keeps|apply IH].
Qed.

Lemma runOps_wellFormed (ops : list op) (h : tcpServer) :
  wellFormed h → wellFormed (runOps h ops).
Proof.
  revert h. induction ops as [|o ops IH]; intros h Hw; cbn; [done|].
  by apply IH, runOp_wellFormed.
Qed.

Lemma NewServer_wellFormed (o : Options) : wellFormed (NewServer o).
Proof. split; [done|]. apply map_Forall_empty. Qed.

End RunsFacts.

Section RegistryClaims.
Context `{Unicode}.

(** C9. The first [Subscribe] of a valid subscriber that is not yet in the
    registry succeeds and stores it; every later [Subscribe] of the same
    object, whatever the server did in between, returns the
    "already exists" error and leaves the server as it is, the object still
    being the one entry under its pointer. *)
Theorem subscribe_twice_rejected (h : tcpServer) (l : loc) (sub : tcpSubscriber)
    (ops : list op) :
  handlers sub ≠ [] →
  validateSubscriber sub = None →
  subscribers h !! l = None →
  let h1 := (Subscribe h (TcpSub l sub)).1 in
  let h' := runOps h1 ops in
  (Subscribe h (TcpSub l sub)).2 = None
  ∧ subscribers h1 = <[l := (sub, [])]> (subscribers h)
  ∧ Subscribe h' (TcpSub l sub) = (h', Some ErrAlreadyExists)
  ∧ fst <$> subscribers h' !! l = Some sub.
Proof.
  intros Hh Hv Hl h1 h'. subst h' h1. rewrite subscribe_fresh by done. cbn [fst snd].
  set (h1 := set_subscribers h _).
  assert (Hk : fst <$> subscribers (runOps h1 ops) !! l = Some sub).
  { apply runOps_keeps. cbn. by rewrite lookup_insert_eq. }
  split_and!; [done..| |done].
  apply subscribe_present; [done..|].
  destruct (subscribers (runOps h1 ops) !! l); [eauto|done].
Qed.

(** C10. [Subscribe] answers a subscriber of a foreign type with the
    "expected *tcpSubscriber" error and one without handlers (a receiver
    without methods, for one) with the "no handler functions" error,
    whatever validation would say, and leaves the server as it is; a
    subscriber that is accepted is one of the package's own, with a
    handler, and is the only change to the registry. *)
Theorem subscribe_rejects_foreign_and_empty (h : tcpServer) :
  (∀ t, Subscribe h (OtherSub t) = (h, Some ErrInvalidSubscriber))
  ∧ (∀ l sub, handlers sub = [] → Subscribe h (TcpSub l sub) = (h, Some ErrNoHandlers))
  ∧ (∀ l t v os, Reflect.kind (sv_type v) ≠ Reflect.Func → sv_methods v = [] →
       Subscribe h (TcpSub l (newSubscriber t v os)) = (h, Some ErrNoHandlers))
  ∧ (∀ sb h', Subscribe h sb = (h', None) →
       ∃ l sub, sb = TcpSub l sub ∧ handlers sub ≠ [] ∧ validateSubscriber sub = None
                ∧ subscribers h !! l = None
                ∧ h' = set_subscribers h (<[l := (sub, [])]> (subscribers h))).
Proof.
  assert (He : ∀ l sub, handlers sub = [] →
            Subscribe h (TcpSub l sub) = (h, Some ErrNoHandlers)).
  { intros l sub Hs. unfold Subscribe. by rewrite Hs. }
  split_and!; [done|done| |].
  - intros l t v os Hk Hm. apply He. unfold newSubscriber.
    rewrite decide_False by done. cbn. by rewrite Hm.
  - intros sb h'. unfold Subscribe. repeat case_match; intros; simplify_eq.
    eexists _, _. split_and!; try done. by destruct (handlers _).
Qed.

(** C3. In every state the server reaches no subscriber holds more than
    one bus binding, and a [Register] while registered is one directory
    call with the cached service record and nothing else: the record is not
    rebuilt, no subscriber is armed, the server is left as it is. *)
Theorem register_while_registered (o : Options) (ops : list op) :
  let h := runOps (NewServer o) ops in
  singleBinding (subscribers h)
  ∧ (registered h = true →
     ∃ svc, rsvc h = Some svc ∧
       ∀ env, Register h env
              = (h, [DirRegister svc (dirRegister env)],
                 match dirRegister env with
                 | Some err => RErr (ErrText err)
                 | None => RNil
                 end)).
Proof.
  intros h. destruct (runOps_wellFormed ops _ (NewServer_wellFormed o)) as [Hr Hs].
  fold h in Hr, Hs. split; [done|]. intros Hreg.
  destruct (Hr Hreg) as [[svc Hsvc] [hdl Hhd]]. exists svc. split; [done|].
  intros env. unfold Register. rewrite Hhd, Hsvc. by destruct (dirRegister env).
Qed.

End RegistryClaims.

Lemma subscribe_twice_rejected_witness :
  let h := NewServer sampleOptions in
  let h1 := (@Subscribe ascii_unicode h (TcpSub 1%positive ordersSub)).1 in
  let h' := @runOps ascii_unicode h1 [OpHandle sampleHandler; OpRegister (registerEnv [1%positive] [1%positive])] in
  (@Subscribe ascii_unicode h (TcpSub 1%positive ordersSub)).2 = None
  ∧ subscribers h1 = <[1%positive := (ordersSub, [])]> (subscribers h)
  ∧ @Subscribe ascii_unicode h' (TcpSub 1%positive ordersSub) = (h', Some ErrAlreadyExists)
  ∧ fst <$> subscribers h' !! 1%positive = Some ordersSub.
Proof.
  apply (@subscribe_twice_rejected ascii_unicode).
  - discriminate.
  - vm_compute. reflexivity.
  - reflexivity.
Defined.

Lemma subscribe_rejects_foreign_and_empty_witness :
  @Subscribe ascii_unicode (NewServer sampleOptions)
    (TcpSub 1%positive (newSubscriber "orders" noMethods []))
  = (NewServer sampleOptions, Some ErrNoHandlers).
Proof.
  apply (@subscribe_rejects_foreign_and_empty ascii_unicode (NewServer sampleOptions)).
  - vm_compute. discriminate.
  - reflexivity.
Defined.

Lemma register_while_registered_witness :
  ∃ svc, rsvc startedServer = Some svc ∧
    ∀ env, Register startedServer env
           = (startedServer, [DirRegister svc (dirRegister env)],
              match dirRegister env with
              | Some err => RErr (ErrText err)
              | None => RNil
              end).
Proof.
  apply (@register_while_registered ascii_unicode sampleOptions
           [OpHandle sampleHandler; OpSubscribe (TcpSub 1%positive ordersSub);
            OpRegister (registerEnv [1%positive] [1%positive])]).
  vm_compute. reflexivity.
Defined.

(** ** Re-registration and the heartbeat *)

Lemma Register_warm (h : tcpServer) (env : RegisterEnv) (svc : Service) (handler : tcpHandler) :
  hd h = Some handler → rsvc h = Some svc →
  Register h env
  = (h, [DirRegister svc (dirRegister env)],
     match dirRegister env with Some err => RErr (ErrText err) | None => RNil end).
Proof. intros Hh Hs. unfold Register. rewrite Hh, Hs. by destruct (dirRegister env). Qed.

(** The part of C2 the code keeps: a [Register] that builds the service
    record and returns without error leaves the server registered. *)
Lemma Register_cold_registered (h : tcpServer) (env : RegisterEnv) :
  rsvc h = None → (Register h env).2 = RNil →
  registered (Register h env).1.1 = true.
Proof.
  intros Hs. unfold Register. rewrite Hs.
  repeat case_match; cbn; intros; by simplify_eq.
Qed.

(** [Deregister] leaves the cached service record in place. *)
Lemma Deregister_rsvc (h : tcpServer) (env : DeregisterEnv) :
  rsvc (Deregister h env).1.1 = rsvc h ∧ hd (Deregister h env).1.1 = hd h.
Proof. unfold Deregister. by repeat case_match. Qed.

(** In general: whenever a registered server is deregistered without
    error, it is left unregistered with its record still cached, and every
    later [Register] is the directory call alone. *)
Lemma Register_after_Deregister (h : tcpServer) (denv : DeregisterEnv) (renv : RegisterEnv) :
  wellFormed h → registered h = true → (Deregister h denv).2 = RNil →
  let h1 := (Deregister h denv).1.1 in
  registered h1 = false
  ∧ ∃ svc, Register h1 renv
           = (h1, [DirRegister svc (dirRegister renv)],
              match dirRegister renv with Some err => RErr (ErrText err) | None => RNil end).
Proof.
  intros [Hw _] Hreg Hok h1. destruct (Hw Hreg) as [[svc Hsvc] [handler Hhd]].
  destruct (Deregister_rsvc h denv) as [Hr Hh]. fold h1 in Hr, Hh. split.
  - subst h1. revert Hok. unfold Deregister. rewrite Hreg.
    repeat case_match; cbn; by intros.
  - exists svc. apply (Register_warm _ _ _ handler); congruence.
Qed.

(** C2, evaluated on the code. After a first [Register] and a [Deregister],
    both without error, the next [Register] returns without error, too, but
    it is the directory call with the cached record alone: the server stays
    unregistered and the subscriber that [Deregister] tore down stays
    without a binding. *)
Theorem register_after_deregister_stays_unregistered :
  let h1 := (Deregister startedServer (deregisterEnv [1%positive])).1.1 in
  let r := Register h1 (registerEnv [1%positive] [1%positive]) in
  registered startedServer = true
  ∧ subscribers startedServer !! 1%positive
    = Some (ordersSub, [ {| bs_id := 1; bs_topic := "orders" |} ])
  ∧ (Deregister startedServer (deregisterEnv [1%positive])).2 = RNil
  ∧ registered h1 = false
  ∧ r.2 = RNil
  ∧ registered r.1.1 = false
  ∧ subscribers r.1.1 !! 1%positive = Some (ordersSub, [])
  ∧ ∃ svc, r.1.2 = [DirRegister svc None].
Proof.
  split_and!; try (vm_compute; reflexivity). eexists. vm_compute. reflexivity.
Qed.

(** C5, evaluated on the code. On a tick whose health predicate fails
    while the server is registered, the loop calls [Deregister] and then,
    on the same tick, [Register]; when the predicate fails while the server
    is not registered it calls neither, and when the predicate is clean it
    calls [Register] alone. *)
Theorem tick_calls (h : tcpServer) (env : TickEnv) :
  (tick h env).2
  = match registerCheck env with
    | Some _ =>
        if registered h
        then [CallDeregister (Deregister h (t_deregister env)).2;
              CallRegister (Register (Deregister h (t_deregister env)).1.1 (t_register env)).2]
        else []
    | None => [CallRegister (Register h (t_register env)).2]
    end.
Proof.
  unfold tick. destruct (registerCheck env), (registered h); cbn.
  - destruct (Deregister _ _) as [[h1 e1] r1]. cbn.
    by destruct (Register h1 _) as [[h2 e2] r2].
  - done.
  - by destruct (Register h _) as [[h2 e2] r2].
  - by destruct (Register h _) as [[h2 e2] r2].
Qed.

Example tick_unhealthy_while_registered :
  let env := {| registerCheck := Some "unhealthy";
                t_deregister := deregisterEnv [1%positive];
                t_register := registerEnv [1%positive] [1%positive] |} in
  (tick startedServer env).2 = [CallDeregister RNil; CallRegister RNil]
  ∧ ∃ svc svc', (tick startedServer env).1.2
       = [DirDeregister svc None;
          BusUnsubscribe {| bs_id := 1; bs_topic := "orders" |} None;
          DirRegister svc' None].
Proof. split; [vm_compute; reflexivity|]. eexists _, _. vm_compute. reflexivity. Qed.

(** ** Sorting by topic *)

Lemma string_gt_asym (a b : string) : string_gt a b = true → string_gt b a = false.
Proof.
  unfold string_gt. rewrite (String.compare_antisym a b).
  by destruct (String.compare b a).
Qed.

Lemma string_gt_lt (a b : string) : string_gt a b = true ↔ String_as_OT.lt b a.
Proof.
  rewrite <- String_as_OT.cmp_lt. unfold String_as_OT.cmp, string_gt.
  rewrite (String.compare_antisym a b). by destruct (String.compare b a).
Qed.

Lemma string_gt_total (a b : string) :
  string_gt a b = false → string_gt b a = false → a = b.
Proof.
  unfold string_gt. rewrite (String.compare_antisym b a).
  destruct (String.compare a b) eqn:E; try done.
  intros _ _. by apply String.compare_eq_iff.
Qed.

Lemma string_gt_trans (a b c : string) :
  string_gt a b = true → string_gt b c = true → string_gt a c = true.
Proof. rewrite !string_gt_lt. intros. by eapply String_as_OT.lt_trans. Qed.

Lemma descending_trans : Transitive descending.
Proof.
  intros a b c. unfold descending, lessTopic. intros Hab Hbc.
  destruct (string_gt (topic c) (topic a)) eqn:Hca; [|done].
  destruct (string_gt (topic a) (topic b)) eqn:Hba.
  - by rewrite (string_gt_trans _ _ _ Hca Hba) in Hbc.
  - rewrite (string_gt_total _ _ Hba Hab) in Hca. by rewrite Hca in Hbc.
Qed.

Section Sort.
Context {A : Type} (less : A → A → bool).
Hypothesis less_asym : ∀ a b, less a b = true → less b a = false.

Lemma insertLeft_Permutation (x : A) (acc : list A) : insertLeft less x acc ≡ₚ x :: acc.
Proof.
  induction acc as [|p ps IH]; cbn; [done|].
  destruct (less x p); [|done]. rewrite IH. apply perm_swap.
Qed.

Lemma foldl_insertLeft_Permutation (l acc : list A) :
  foldl (λ acc x, insertLeft less x acc) acc l ≡ₚ l ++ acc.
Proof.
  revert acc. induction l as [|x l IH]; intros acc; cbn; [done|].
  rewrite IH, insertLeft_Permutation. by rewrite Permutation_middle.
Qed.

Lemma sort_Slice_Permutation (l : list A) : sort_Slice less l ≡ₚ l.
Proof.
  unfold sort_Slice. rewrite reverse_Permutation, foldl_insertLeft_Permutation.
  by rewrite app_nil_r.
Qed.

(** In the reversed prefix an element stands before those it is not less
    than. *)
Lemma insertLeft_HdRel (p x : A) (ps : list A) :
  less p x = false → HdRel (λ a b, less a b = false) p ps →
  HdRel (λ a b, less a b = false) p (insertLeft less x ps).
Proof.
  intros Hpx Hp. destruct ps as [|q qs]; cbn; [by constructor|].
  destruct (less x q); constructor; [by inv Hp|done].
Qed.

Lemma insertLeft_Sorted (x : A) (acc : list A) :
  Sorted (λ a b, less a b = false) acc →
  Sorted (λ a b, less a b = false) (insertLeft less x acc).
Proof.
  induction 1 as [|p ps Hs IH Hp]; cbn; [by repeat constructor|].
  destruct (less x p) eqn:Hx.
  - constructor; [done|]. apply insertLeft_HdRel; [by apply less_asym|done].
  - constructor; [by constructor|]. by constructor.
Qed.

Lemma foldl_insertLeft_Sorted (l acc : list A) :
  Sorted (λ a b, less a b = false) acc →
  Sorted (λ a b, less a b = false) (foldl (λ acc x, insertLeft less x acc) acc l).
Proof.
  revert acc. induction l as [|x l IH]; intros acc Hacc; cbn; [done|].
  by apply IH, insertLeft_Sorted.
Qed.

Lemma sort_Slice_Sorted (l : list A) :
  Sorted (λ a b, less b a = false) (sort_Slice less l).
Proof.
  unfold sort_Slice.
  apply (Sorted_reverse (λ a b, less a b = false)), foldl_insertLeft_Sorted. constructor.
Qed.

End Sort.

(** ** The advertised endpoints *)

Lemma lessTopic_asym (a b : tcpSubscriber) : lessTopic a b = true → lessTopic b a = false.
Proof. apply string_gt_asym. Qed.

Lemma omap_lookup_pairs (m : registry) (kvs : list (loc * (tcpSubscriber * list brokerSubscriber))) :
  (∀ k v, (k, v) ∈ kvs → m !! k = Some v) →
  omap (λ l, fst <$> m !! l) kvs.*1 = kvs.*2.*1.
Proof.
  unfold omap. induction kvs as [|[k v] kvs IH]; intros Hm; [done|]. cbn.
  rewrite (Hm k v) by left. cbn. f_equal. apply IH. intros k' v' Hin. apply Hm. by right.
Qed.

Lemma subscriberList_Permutation (m : registry) (order : list loc) :
  order ≡ₚ (map_to_list m).*1 → subscriberList m order ≡ₚ nonInternal m.
Proof.
  intros Ho. unfold subscriberList, nonInternal. rewrite Ho.
  rewrite omap_lookup_pairs; [done|]. intros k v. apply elem_of_map_to_list.
Qed.

(** The sorted list is decided by the registry when no two advertised
    subscribers share a topic. *)
Lemma sorted_subscribers_unique (m : registry) (order order' : list loc) :
  (∀ a b, a ∈ nonInternal m → b ∈ nonInternal m → topic a = topic b → a = b) →
  order ≡ₚ (map_to_list m).*1 → order' ≡ₚ (map_to_list m).*1 →
  sort_Slice lessTopic (subscriberList m order) = sort_Slice lessTopic (subscriberList m order').
Proof.
  intros Hinj Ho Ho'.
  assert (Hp : sort_Slice lessTopic (subscriberList m order) ≡ₚ nonInternal m).
  { etrans; [apply sort_Slice_Permutation|by apply subscriberList_Permutation]. }
  assert (Hp' : sort_Slice lessTopic (subscriberList m order') ≡ₚ nonInternal m).
  { etrans; [apply sort_Slice_Permutation|by apply subscriberList_Permutation]. }
  apply (@Sorted_unique_strong _ descending descending_trans).
  - intros a b Ha Hb Hab Hba. rewrite Hp in Ha. rewrite Hp' in Hb.
    apply Hinj; [done..|]. by apply string_gt_total.
  - apply sort_Slice_Sorted, lessTopic_asym.
  - apply sort_Slice_Sorted, lessTopic_asym.
  - by rewrite Hp, Hp'.
Qed.

(** C8, as the code has it. The service record a [Register] on the cold
    path sends to the directory lists the endpoints of the handler (none
    when the handler is internal, one per metadata entry otherwise)
    followed by the endpoints of the subscribers that are not internal,
    these sorted by topic, descending.  The list is the same for every
    order in which the registry is visited when no two of those subscribers
    share a topic. *)
Theorem register_advertises (h : tcpServer) (env : RegisterEnv)
    (options : HandlerOptions) (size : option Z) (svc0 : Service) :
  hd h = Some (NewHandler options size) →
  rsvc h = None →
  newService env = Ok svc0 →
  svc_Nodes svc0 ≠ [] →
  orderAdvertise env ≡ₚ (map_to_list (subscribers h)).*1 →
  ∃ service rest L,
    (Register h env).1.2 = DirRegister service (dirRegister env) :: rest
    ∧ svc_Endpoints service
      = (if ho_Internal options then [] else handlerEndpoint <$> ho_Metadata options)
        ++ mjoin (endpoints <$> L)
    ∧ L ≡ₚ nonInternal (subscribers h)
    ∧ Sorted descending L
    ∧ ((∀ a b, a ∈ nonInternal (subscribers h) → b ∈ nonInternal (subscribers h) →
               topic a = topic b → a = b) →
       ∀ order, order ≡ₚ (map_to_list (subscribers h)).*1 →
         advertised (eps (NewHandler options size)) (subscribers h) order
         = svc_Endpoints service).
Proof.
  intros Hhd Hrs Hnew Hnodes Ho.
  set (L := sort_Slice lessTopic (subscriberList (subscribers h) (orderAdvertise env))).
  assert (He : eps (NewHandler options size)
               = if ho_Internal options then [] else handlerEndpoint <$> ho_Metadata options).
  { unfold NewHandler. cbn. by destruct (ho_Internal options). }
  assert (HR : ∃ service rest,
            (Register h env).1.2 = DirRegister service (dirRegister env) :: rest
            ∧ svc_Endpoints service
              = advertised (eps (NewHandler options size)) (subscribers h) (orderAdvertise env)).
  { unfold Register. rewrite Hhd, Hrs, Hnew.
    destruct svc0 as [name [|n ns] es]; [done|]. cbn.
    destruct (dirRegister env); [by eexists _, _|].
    destruct (registered h); [by eexists _, _|].
    destruct (armAll _ _ _ _) as [[m evs] [err|]]; by eexists _, _. }
  destruct HR as (service & rest & Htr & Hep).
  exists service, rest, L. split_and!.
  - done.
  - rewrite Hep. unfold advertised. by rewrite He.
  - subst L. etrans; [apply sort_Slice_Permutation|by apply subscriberList_Permutation].
  - apply sort_Slice_Sorted, lessTopic_asym.
  - intros Hinj order Hord. rewrite Hep. unfold advertised.
    by rewrite (sorted_subscribers_unique _ order (orderAdvertise env)).
Qed.

Lemma register_advertises_witness :
  let h := serverWith paymentsSub in
  let env := registerEnv [1%positive; 2%positive] [1%positive; 2%positive] in
  ∃ service rest L,
    (Register h env).1.2 = DirRegister service (dirRegister env) :: rest
    ∧ svc_Endpoints service
      = (handlerEndpoint <$> [("Shop.Get", [("method", "GET")])]) ++ mjoin (endpoints <$> L)
    ∧ L ≡ₚ nonInternal (subscribers h)
    ∧ Sorted descending L
    ∧ ((∀ a b, a ∈ nonInternal (subscribers h) → b ∈ nonInternal (subscribers h) →
               topic a = topic b → a = b) →
       ∀ order, order ≡ₚ (map_to_list (subscribers h)).*1 →
         advertised (eps sampleHandler) (subscribers h) order = svc_Endpoints service).
Proof.
  apply (register_advertises (serverWith paymentsSub)
           (registerEnv [1%positive; 2%positive] [1%positive; 2%positive])
           {| ho_Internal := false; ho_Metadata := [("Shop.Get", [("method", "GET")])] |}
           None sampleService).
  - vm_compute. reflexivity.
  - vm_compute. reflexivity.
  - reflexivity.
  - discriminate.
  - refine (bool_decide_unpack _ _). vm_compute. exact I.
Defined.

Example register_advertises_payments_first :
  ∃ service rest,
    (Register (serverWith paymentsSub)
       (registerEnv [1%positive; 2%positive] [1%positive; 2%positive])).1.2
    = DirRegister service None :: rest
    ∧ ep_Name <$> svc_Endpoints service = ["Shop.Get"; "Payments.Settle"; "Orders.Audit"; "Orders.Primary"].
Proof. eexists _, _. split; vm_compute; reflexivity. Qed.

(** C8, as stated, fails on the order: with two advertised subscribers of
    the same topic, the two orders in which the registry can be visited
    give two different endpoint lists. *)
Lemma register_advertises_counterexample :
  let h := serverWith auditSub in
  let keys := (map_to_list (subscribers h)).*1 in
  [1%positive; 2%positive] ≡ₚ keys ∧ [2%positive; 1%positive] ≡ₚ keys
  ∧ ∃ s1 s2 r1 r2,
      (Register h (registerEnv [1%positive; 2%positive] [1%positive; 2%positive])).1.2
      = DirRegister s1 None :: r1
      ∧ (Register h (registerEnv [2%positive; 1%positive] [1%positive; 2%positive])).1.2
        = DirRegister s2 None :: r2
      ∧ ep_Name <$> svc_Endpoints s1 = ["Shop.Get"; "Orders.Audit"; "Orders.Primary"; "Audit.Record"]
      ∧ ep_Name <$> svc_Endpoints s2 = ["Shop.Get"; "Audit.Record"; "Orders.Audit"; "Orders.Primary"]
      ∧ svc_Endpoints s1 ≠ svc_Endpoints s2.
Proof.
  split_and!; [refine (bool_decide_unpack _ _); vm_compute; exact I..|].
  eexists _, _, _, _. split_and!; [vm_compute; reflexivity..|].
  vm_compute. discriminate.
Qed.

(** ** The accept loop *)

Lemma wrap64_small (z : Z) : (- 2 ^ 63 ≤ z < 2 ^ 63)%Z → wrap64 z = z.
Proof.
  intros Hz. unfold wrap64.
  change (2 ^ 64)%Z with 18446744073709551616%Z.
  change (2 ^ 63)%Z with 9223372036854775808%Z in *.
  rewrite Z.mod_small; lia.
Qed.

Lemma backoff_bounds (k : nat) : (5 * Millisecond ≤ backoff k ≤ Second)%Z.
Proof.
  unfold backoff, Millisecond, Second.
  assert (1 ≤ 2 ^ Z.of_nat k)%Z by (apply Z.pow_le_mono_r with (b := 0%Z); lia).
  lia.
Qed.

Lemma backoff_S (k : nat) : backoff (S k) = Z.min (2 * backoff k) Second.
Proof.
  unfold backoff. rewrite Nat2Z.inj_succ, Z.pow_succ_r by lia.
  unfold Millisecond, Second. lia.
Qed.

Lemma nextDelay_delayAfter (k : nat) : nextDelay (delayAfter k) = backoff k.
Proof.
  destruct k as [|j]; [reflexivity|]. cbn [delayAfter].
  pose proof (backoff_bounds j) as Hb. unfold Millisecond, Second in Hb.
  unfold nextDelay. rewrite backoff_S.
  destruct (backoff j =? 0)%Z eqn:Hz; [lia|].
  change (wrap64 (1 * Second)) with Second.
  rewrite wrap64_small.
  - unfold Second. destruct (1000000000 <? backoff j * 2)%Z eqn:Hlt; lia.
  - change (2 ^ 63)%Z with 9223372036854775808%Z. lia.
Qed.

Lemma serve_sleeps (accepts : list accept) (k : nat) :
  sleeps (serve (delayAfter k) accepts).1.1
  = backoff <$> seq k (length (sleeps (serve (delayAfter k) accepts).1.1)).
Proof.
  revert k. induction accepts as [|a rest IH]; intros k; [done|].
  cbn [serve]. destruct (a_result a).
  - specialize (IH k). destruct (serve (delayAfter k) rest) as [[acts d] r]. exact IH.
  - destruct (a_exit a); [done|]. rewrite nextDelay_delayAfter.
    specialize (IH (S k)). cbn [delayAfter] in IH.
    destruct (serve (backoff k) rest) as [[acts d] r]. cbn in *. by rewrite <- IH.
  - done.
Qed.

(** C4, as the code has it. Over the whole run of the accept loop the
    [k]-th temporary failure sleeps [min(5ms * 2^k, 1s)]: the sleeps start
    at 5ms, double with every temporary failure, are capped at one second
    and never decrease.  A successful accept leaves the delay as it is: the
    next temporary failure sleeps twice the previous sleep (up to the cap),
    not 5ms. *)
Theorem serve_backoff (accepts : list accept) :
  let acts := (serve 0%Z accepts).1.1 in
  sleeps acts = backoff <$> seq 0 (length (sleeps acts))
  ∧ (∀ d, sleeps acts !! 0 = Some d → d = (5 * Millisecond)%Z)
  ∧ (∀ k d d', sleeps acts !! k = Some d → sleeps acts !! S k = Some d' →
               d' = Z.min (2 * d) Second ∧ (d ≤ d' ≤ Second)%Z)
  ∧ (∀ c d rest, serve d (accepted c :: rest)
                 = ((Serve c :: (serve d rest).1.1), (serve d rest).1.2, (serve d rest).2)).
Proof.
  intros acts.
  assert (Hs : sleeps acts = backoff <$> seq 0 (length (sleeps acts)))
    by exact (serve_sleeps accepts 0).
  assert (Hk : ∀ k d, sleeps acts !! k = Some d → d = backoff k).
  { intros k d Hd. rewrite Hs in Hd. apply list_lookup_fmap_Some in Hd as (i & -> & Hi).
    apply lookup_seq in Hi as [-> _]. done. }
  split_and!.
  - done.
  - intros d Hd. by rewrite (Hk _ _ Hd).
  - intros k d d' Hd Hd'. rewrite (Hk _ _ Hd), (Hk _ _ Hd'), backoff_S.
    pose proof (backoff_bounds k) as Hb. unfold Millisecond, Second in *. lia.
  - intros c d rest. cbn. by destruct (serve d rest) as [[? ?] ?].
Qed.

Lemma serve_backoff_witness :
  (10 * Millisecond)%Z = Z.min (2 * (5 * Millisecond)) Second
  ∧ (5 * Millisecond ≤ 10 * Millisecond ≤ Second)%Z.
Proof.
  apply (proj1 (proj2 (proj2 (serve_backoff [temporary; accepted 1; temporary]))) 0);
    reflexivity.
Defined.

(** C4, as stated, fails on the reset: a temporary failure, a successful
    accept and another temporary failure sleep 5ms and then 10ms, not 5ms
    again. *)
Lemma serve_backoff_counterexample :
  sleeps (serve 0%Z [temporary; accepted 1; temporary]).1.1
  = [(5 * Millisecond)%Z; (10 * Millisecond)%Z]
  ∧ sleeps (serve 0%Z [temporary; accepted 1; temporary]).1.1
    ≠ [(5 * Millisecond)%Z; (5 * Millisecond)%Z].
Proof. split; [vm_compute; reflexivity|vm_compute; discriminate]. Qed.

Example serve_backoff_cap :
  sleeps (serve 0%Z (replicate 10 temporary)).1.1
  = (λ ms, (ms * Millisecond)%Z) <$> [5; 10; 20; 40; 80; 160; 320; 640; 1000; 1000]%Z.
Proof. vm_compute. reflexivity. Qed.

(** ** The required signature, on samples *)

(** A receiver whose second method takes a payload of an unexported type:
    the error names the receiver type, not the method. *)
Lemma subscribe_requires_leading_context_witness :
  let h := NewServer sampleOptions in
  let sub := newSubscriber "orders" hiddenValue [] in
  let res := @Subscribe ascii_unicode h (TcpSub 1%positive sub) in
  handlers sub ≠ []
  ∧ subscribers h !! 1%positive = None
  ∧ Reflect.kind (sv_type hiddenValue) ≠ Reflect.Func
  ∧ res = (h, Some (ErrArgNotExported "Orders" hiddenT))
  ∧ ∃ pre mt post,
      sv_methods hiddenValue = pre ++ mt :: post
      ∧ Forall (λ m, @canonicalShape ascii_unicode 2 (Reflect.m_Type m)) pre
      ∧ @rejection ascii_unicode 2 ("Orders" +:+ "." +:+ Reflect.m_Name mt) "Orders"
          (Reflect.m_Type mt) (ErrArgNotExported "Orders" hiddenT).
Proof.
  split_and!; [discriminate|reflexivity|discriminate|vm_compute; reflexivity|].
  refine (proj2 (proj2 (proj2 (proj2
            (@subscribe_requires_leading_context ascii_unicode (NewServer sampleOptions)
               1%positive (newSubscriber "orders" hiddenValue []) _ _) _))
            (ErrArgNotExported "Orders" hiddenT) _)).
  - discriminate.
  - reflexivity.
  - discriminate.
  - vm_compute. reflexivity.
Defined.

(** The shape, on samples: a function and a method with a payload of an
    unexported type are not of the shape and are rejected for it, the
    method under the name of the receiver type alone; a method with the
    payload parameter alone is rejected for its number of parameters under
    the name of the method. *)
Example subscribe_unexported_payload :
  ¬ @exportedOrBuiltin ascii_unicode hiddenT
  ∧ @exportedOrBuiltin ascii_unicode orderCreatedT
  ∧ @exportedOrBuiltin ascii_unicode stringT
  ∧ @Subscribe ascii_unicode (NewServer sampleOptions)
      (TcpSub 1%positive (newSubscriber "orders" hiddenFunc []))
    = (NewServer sampleOptions, Some (ErrArgNotExported "Func" hiddenT))
  ∧ @Subscribe ascii_unicode (NewServer sampleOptions)
      (TcpSub 1%positive (newSubscriber "orders" hiddenValue []))
    = (NewServer sampleOptions, Some (ErrArgNotExported "Orders" hiddenT))
  ∧ @Subscribe ascii_unicode (NewServer sampleOptions)
      (TcpSub 1%positive (newSubscriber "orders" closableValue []))
    = (NewServer sampleOptions, Some (ErrWrongNumArgs "Closable.Close" 1)).
Proof.
  split_and!; try (vm_compute; reflexivity).
  - intros [Hu|Hp]; vm_compute in Hu || vm_compute in Hp; discriminate.
  - left. vm_compute. reflexivity.
  - right. reflexivity.
Qed.

Example subscribe_context_func_accepted :
  (@Subscribe ascii_unicode (NewServer sampleOptions)
     (TcpSub 1%positive (newSubscriber "orders" contextFunc []))).2 = None.
Proof. vm_compute. reflexivity. Qed.

(** C7, as stated, fails: [func(string) error] has a single builtin
    payload parameter, no leading context and the single result [error];
    [newSubscriber] builds a handler for it, yet [Subscribe] rejects it for
    its number of arguments and stores nothing. *)
Lemma subscribe_requires_leading_context_counterexample :
  let sub := newSubscriber "orders" payloadOnlyFunc [] in
  Reflect.ins (sv_type (subscriber sub)) = [stringT]
  ∧ @isExportedOrBuiltinType ascii_unicode stringT = true
  ∧ Reflect.outs (sv_type (subscriber sub)) = [Reflect.typeOfError]
  ∧ (reqType <$> handlers sub) = [Some stringT]
  ∧ (ctxType <$> handlers sub) = [None]
  ∧ @Subscribe ascii_unicode (NewServer sampleOptions) (TcpSub 1%positive sub)
    = (NewServer sampleOptions, Some (ErrWrongNumArgs "Func" 1)).
Proof. split_and!; vm_compute; reflexivity. Qed.

(** * Further properties of the code *)

(** ** The dispatcher, continued *)

Lemma wrap_app (ws1 ws2 : list SubscriberWrapper) (fn : SubscriberFunc) :
  wrap (ws1 ++ ws2) fn = wrap ws1 (wrap ws2 fn).
Proof. unfold wrap. apply foldr_app. Qed.

Lemma wrapLoop_take (ws : list SubscriberWrapper) (i : nat) (fn : SubscriberFunc) :
  i ≤ length ws → wrapLoop ws i fn = wrap (take i ws) fn.
Proof.
  revert fn. induction i as [|j IH]; intros fn Hi; [done|].
  destruct (lookup_lt_is_Some_2 ws j) as [w Hw]; [lia|].
  cbn [wrapLoop]. unfold SubscriberWrapper in *.
  rewrite Hw, IH by lia. by rewrite (take_S_r _ _ _ Hw), wrap_app.
Qed.

(** X1. The loop over [opts.SubWrappers], run from the last index down,
    nests the wrappers in the order they were registered: the first one is
    the outermost, the last one sits next to the handler. *)
Theorem wrapLoop_onion (ws : list SubscriberWrapper) (fn : SubscriberFunc) :
  wrapLoop ws (length ws) fn = wrap ws fn
  ∧ (∀ w ws', ws = w :: ws' → wrapLoop ws (length ws) fn = w (wrapLoop ws' (length ws') fn))
  ∧ (∀ w ws', ws = ws' ++ [w] → wrapLoop ws (length ws) fn = wrapLoop ws' (length ws') (w fn)).
Proof.
  assert (Hw : ∀ l f, wrapLoop l (length l) f = wrap l f).
  { intros l f. by rewrite wrapLoop_take, firstn_all by done. }
  split_and!; [done| |].
  - intros w ws' ->. by rewrite !Hw.
  - intros w ws' ->. by rewrite !Hw, wrap_app.
Qed.

Lemma wrapLoop_onion_witness :
  wrapLoop [blockAll; passThrough] 2 (λ _ _, None)
  = blockAll (wrapLoop [passThrough] 1 (λ _ _, None)).
Proof.
  apply (proj1 (proj2 (wrapLoop_onion [blockAll; passThrough] (λ _ _, None)))
           blockAll [passThrough]).
  reflexivity.
Defined.

Section DispatchMore.
Variables (srv : Options) (sb : tcpSubscriber) (opts : Options).
Variables (sched : list nat) (p : Message) (cf : Codec).

Let ct := default "" (Header p !! "Content-Type").
Let ctx := delete "Content-Type" (Header p).

(** X2. When exactly one of the N invocations fails, with message [m],
    the dispatch returns the error "subscriber error: " followed by [m]
    alone, in whatever order the goroutines finish. *)
Theorem dispatch_single_failure (outs : list (option string)) (m : string) :
  newCodec srv ct = Some cf →
  Forall2 (λ h o, launch cf sb opts ctx ct p h = Launched o) (handlers sb) outs →
  sched ≡ₚ seq 0 (length (handlers sb)) →
  omap id outs = [m] →
  d_result (createSubHandler srv sb opts sched p)
  = RErr (ErrText ("subscriber error: " +:+ m)).
Proof.
  intros Hcf HF Hs Hm.
  pose proof (Forall2_length _ _ _ HF) as Hlen.
  unfold createSubHandler. fold ct. rewrite Hcf. fold ctx.
  rewrite (launchAll_all _ _ _ _ _ _ _ outs) by done.
  rewrite Hlen in Hs |- *.
  pose proof (collect_Permutation outs sched Hs) as Hperm.
  rewrite Hm in Hperm. apply Permutation_singleton_r in Hperm.
  cbn [d_result]. by rewrite Hperm.
Qed.

End DispatchMore.

Lemma dispatch_single_failure_witness :
  d_result (createSubHandler sampleOptions ordersSub sampleOptions [1; 0] sampleEvent)
  = RErr (ErrText ("subscriber error: " +:+ "audit store unreachable")).
Proof.
  apply (dispatch_single_failure sampleOptions ordersSub sampleOptions [1; 0] sampleEvent
           sampleCodec [Some "audit store unreachable"; None]).
  - vm_compute. reflexivity.
  - constructor; [vm_compute; reflexivity|].
    constructor; [vm_compute; reflexivity|]. constructor.
  - apply perm_swap.
  - reflexivity.
Defined.

Section ValidatedHandlers.
Context `{Unicode}.

(** X3. A subscriber built by [newSubscriber] that passes
    [validateSubscriber] has a request type and a context type in every
    handler: the request type is the last declared parameter and the
    context type the one before it.  The handlers [newSubscriber] builds
    without a context type (one-parameter functions, methods of two inputs)
    and those without a request type never pass validation. *)
Theorem validated_handlers_typed (t : string) (v : subscriberValue)
    (os : list (SubscriberOptions → SubscriberOptions)) :
  validateSubscriber (newSubscriber t v os) = None →
  Forall (λ h, is_Some (reqType h) ∧ is_Some (ctxType h)) (handlers (newSubscriber t v os))
  ∧ (Reflect.kind (sv_type v) = Reflect.Func →
     ∃ c a, Reflect.ins (sv_type v) = [c; a]
            ∧ reqType <$> handlers (newSubscriber t v os) = [Some a]
            ∧ ctxType <$> handlers (newSubscriber t v os) = [Some c])
  ∧ (Reflect.kind (sv_type v) ≠ Reflect.Func →
     Forall2 (λ h mt, ∃ r c a, Reflect.ins (Reflect.m_Type mt) = [r; c; a]
                               ∧ reqType h = Some a ∧ ctxType h = Some c)
       (handlers (newSubscriber t v os)) (sv_methods v)).
Proof.
  intros Hv. split; [by apply validated_handlers|]. revert Hv.
  unfold validateSubscriber, newSubscriber.
  destruct (decide (Reflect.kind (sv_type v) = Reflect.Func)) as [Hk|Hk]; cbn.
  - rewrite decide_True by done. rewrite validateFunc_None.
    intros (pre & a & Hi & Hl & _ & _). destruct pre as [|c [|]]; try done.
    split; [|done]. intros _. exists c, a. unfold funcHandler. by rewrite Hi.
  - rewrite decide_False by done. rewrite validateMethods_None.
    intros HF. split; [done|]. intros _.
    apply Forall2_same_length_lookup_2; [by rewrite length_imap|].
    intros i h mt Hh Hmt. apply list_lookup_imap_Some in Hh as (mt' & Hmt' & ->).
    rewrite Hmt in Hmt'. injection Hmt' as <-.
    pose proof (Forall_lookup_1 _ _ _ _ HF Hmt) as (pre & a & Hi & Hl & _ & _).
    destruct pre as [|r [|c [|]]]; try done.
    exists r, c, a. unfold methodHandler. by rewrite Hi.
Qed.

End ValidatedHandlers.

Lemma validated_handlers_typed_witness :
  Forall (λ h, is_Some (reqType h) ∧ is_Some (ctxType h)) (handlers ordersSub)
  ∧ (Reflect.kind (sv_type ordersValue) = Reflect.Func →
     ∃ c a, Reflect.ins (sv_type ordersValue) = [c; a]
            ∧ reqType <$> handlers ordersSub = [Some a]
            ∧ ctxType <$> handlers ordersSub = [Some c])
  ∧ (Reflect.kind (sv_type ordersValue) ≠ Reflect.Func →
     Forall2 (λ h mt, ∃ r c a, Reflect.ins (Reflect.m_Type mt) = [r; c; a]
                               ∧ reqType h = Some a ∧ ctxType h = Some c)
       (handlers ordersSub) (sv_methods ordersValue)).
Proof.
  apply (@validated_handlers_typed ascii_unicode "orders" ordersValue []).
  vm_compute. reflexivity.
Defined.

(** ** Validation, continued *)

Section ValidationMore.
Context `{Unicode}.

Lemma validateMethods_first (name : string) (pre post : list Reflect.Method)
    (mt : Reflect.Method) :
  Forall (λ mt, requiredShape 2 (Reflect.m_Type mt)) pre →
  validateMethods name (pre ++ mt :: post)
  = match validateMethod name mt with
    | Some e => Some e
    | None => validateMethods name post
    end.
Proof.
  induction 1 as [|m pre Hm _ IH]; [done|]. cbn.
  apply (validateMethod_None name) in Hm. by rewrite Hm.
Qed.

(** X4. For a subscriber that is not a function, validation looks at every
    method of the method set: it accepts exactly when each method takes the
    receiver, a leading parameter and the payload, has an exported or
    builtin payload type and the single result [error]; otherwise the error
    is the one of the first method that does not, so a single other
    exported method makes the whole subscriber rejected. *)
Theorem validateSubscriber_receiver (sub : tcpSubscriber) :
  Reflect.kind (sv_type (subscriber sub)) ≠ Reflect.Func →
  (validateSubscriber sub = None
   ↔ Forall (λ mt, requiredShape 2 (Reflect.m_Type mt)) (sv_methods (subscriber sub)))
  ∧ (∀ pre mt post e,
       sv_methods (subscriber sub) = pre ++ mt :: post →
       Forall (λ mt, requiredShape 2 (Reflect.m_Type mt)) pre →
       validateMethod (indirectName (sv_type (subscriber sub))) mt = Some e →
       validateSubscriber sub = Some e).
Proof.
  intros Hk. split.
  - unfold validateSubscriber. rewrite decide_False by done. apply validateMethods_None.
  - intros pre mt post e Hms Hpre He. unfold validateSubscriber.
    rewrite decide_False by done. by rewrite Hms, validateMethods_first, He.
Qed.

End ValidationMore.

Lemma validateSubscriber_receiver_witness :
  @validateSubscriber ascii_unicode (newSubscriber "orders" closableValue [])
  = Some (ErrWrongNumArgs "Closable.Close" 1).
Proof.
  apply (proj2 (@validateSubscriber_receiver ascii_unicode
                  (newSubscriber "orders" closableValue []) ltac:(discriminate))
           [methodOf "Closable" "Audit" orderAuditT] closeMethod []
           (ErrWrongNumArgs "Closable.Close" 1)).
  - reflexivity.
  - constructor; [|constructor]. by exists [Reflect.PtrTo (Reflect.Basic "shop" "Closable" Reflect.Struct); contextT], orderAuditT.
  - reflexivity.
Defined.

(** ** [newSubscriber] on a function *)

(** X5. For a subscriber that is a function, [newSubscriber] builds one
    handler, which calls the function, and one endpoint, named Func, whose
    request is taken from the function type and whose metadata holds the
    topic under the key Topic and true under the key Subscriber:
    [metadata.Set] stores a value under the canonical form of its key.  The
    request type of the handler is the last parameter of a function of one
    or two parameters and its context type the first of two; for any other
    number of parameters neither is set. *)
Theorem newSubscriber_function (t : string) (v : subscriberValue)
    (os : list (SubscriberOptions → SubscriberOptions)) :
  Reflect.kind (sv_type v) = Reflect.Func →
  let s := newSubscriber t v os in
  endpoints s = [ {| ep_Name := "Func"; ep_Request := Some (sv_type v);
                     ep_Metadata := [("Topic", t); ("Subscriber", "true")] |} ]
  ∧ method <$> handlers s = [sv_func v]
  ∧ (∀ a, Reflect.ins (sv_type v) = [a] →
          reqType <$> handlers s = [Some a] ∧ ctxType <$> handlers s = [None])
  ∧ (∀ c a, Reflect.ins (sv_type v) = [c; a] →
            reqType <$> handlers s = [Some a] ∧ ctxType <$> handlers s = [Some c])
  ∧ (Reflect.NumIn (sv_type v) ≠ 1 → Reflect.NumIn (sv_type v) ≠ 2 →
     reqType <$> handlers s = [None] ∧ ctxType <$> handlers s = [None]).
Proof.
  intros Hk s. subst s. unfold newSubscriber. rewrite decide_True by done. cbn.
  unfold funcHandler, Reflect.NumIn. split_and!.
  - done.
  - by destruct (Reflect.ins (sv_type v)) as [|c [|a [|]]].
  - by intros a ->.
  - by intros c a ->.
  - by destruct (Reflect.ins (sv_type v)) as [|c [|a [|]]].
Qed.

Lemma newSubscriber_function_witness :
  let s := newSubscriber "orders" contextFunc [] in
  endpoints s = [ {| ep_Name := "Func"; ep_Request := Some (sv_type contextFunc);
                     ep_Metadata := [("Topic", "orders"); ("Subscriber", "true")] |} ]
  ∧ method <$> handlers s = [sv_func contextFunc]
  ∧ (∀ a, Reflect.ins (sv_type contextFunc) = [a] →
          reqType <$> handlers s = [Some a] ∧ ctxType <$> handlers s = [None])
  ∧ (∀ c a, Reflect.ins (sv_type contextFunc) = [c; a] →
            reqType <$> handlers s = [Some a] ∧ ctxType <$> handlers s = [Some c])
  ∧ (Reflect.NumIn (sv_type contextFunc) ≠ 1 → Reflect.NumIn (sv_type contextFunc) ≠ 2 →
     reqType <$> handlers s = [None] ∧ ctxType <$> handlers s = [None]).
Proof.
  apply (newSubscriber_function "orders" contextFunc []). reflexivity.
Defined.

(** [metadata.Set] on samples: a key is stored in its canonical form, and
    setting it again replaces the value. *)
Example metadata_Set_canonical :
  CanonicalMIMEHeaderKey "topic" = "Topic"
  ∧ CanonicalMIMEHeaderKey "content-type" = "Content-Type"
  ∧ CanonicalMIMEHeaderKey "not a header" = "not a header"
  ∧ metadata_Set (metadata_Set [("Topic", "orders")] "subscriber" "true") "TOPIC" "payments"
    = [("Topic", "payments"); ("Subscriber", "true")].
Proof. split_and!; vm_compute; reflexivity. Qed.

(** ** [Register] and [Deregister], continued *)

Lemma omap_ext_elem {A B} (f g : A → option B) (l : list A) :
  (∀ x, x ∈ l → f x = g x) → omap f l = omap g l.
Proof.
  unfold omap. induction l as [|x l IH]; intros Hfg; [done|]. cbn.
  rewrite (Hfg x) by left. rewrite IH; [done|]. intros y Hy. apply Hfg. by right.
Qed.

Lemma bind_ext_elem {A B} (f g : A → list B) (l : list A) :
  (∀ x, x ∈ l → f x = g x) → l ≫= f = l ≫= g.
Proof.
  induction l as [|x l IH]; intros Hfg; [done|]. cbn.
  rewrite (Hfg x) by left. f_equal. apply IH. intros y Hy. apply Hfg. by right.
Qed.

(** The second loop of [Register] when every [Subscribe] it makes
    succeeds. *)
Lemma armAll_ok config busSub (handle : loc → brokerSubscriber)
    (order : list loc) (m : registry) :
  NoDup order →
  (∀ l, l ∈ order → busSub l = Ok (handle l)) →
  ∃ m', armAll config busSub m order
        = (m', omap (subscribeCall config busSub m) order, None)
    ∧ ∀ k, m' !! k = if decide (k ∈ order)
                     then (λ v, (v.1, [handle k])) <$> m !! k
                     else m !! k.
Proof.
  revert m. induction order as [|l order IH]; intros m Hnd Hok.
  { exists m. split; [done|]. intros k. by rewrite decide_False by apply not_elem_of_nil. }
  apply NoDup_cons in Hnd as [Hl Hnd].
  assert (Hok' : ∀ k, k ∈ order → busSub k = Ok (handle k)) by (intros; apply Hok; by right).
  cbn [armAll]. unfold omap. cbn [list_omap]. unfold subscribeCall at 1.
  destruct (m !! l) as [[sb x]|] eqn:Hml; cbn.
  - rewrite (Hok l) by left.
    destruct (IH (<[l := (sb, [handle l])]> m) Hnd Hok') as (m' & -> & Hm').
    exists m'. split.
    + do 2 f_equal. f_equal. apply omap_ext_elem. intros k Hk. unfold subscribeCall.
      rewrite lookup_insert_ne; [done|]. by intros ->.
    + intros k. rewrite Hm'. destruct (decide (k = l)) as [->|Hne].
      * rewrite decide_False by done. rewrite decide_True by left.
        by rewrite lookup_insert_eq, Hml.
      * rewrite lookup_insert_ne by done.
        destruct (decide (k ∈ order)).
        -- by rewrite decide_True by (by right).
        -- rewrite decide_False; [done|]. by intros [?|?]%elem_of_cons.
  - destruct (IH m Hnd Hok') as (m' & -> & Hm'). exists m'. split; [done|].
    intros k. rewrite Hm'. destruct (decide (k = l)) as [->|Hne].
    + rewrite decide_False by done. rewrite decide_True by left. by rewrite Hml.
    + destruct (decide (k ∈ order)).
      * by rewrite decide_True by (by right).
      * rewrite decide_False; [done|]. by intros [?|?]%elem_of_cons.
Qed.

(** The same loop when the [Subscribe] for [l] is the first to fail. *)
Lemma armAll_fail config busSub (handle : loc → brokerSubscriber)
    (pre post : list loc) (l : loc) (err : string) (m : registry) :
  NoDup (pre ++ l :: post) →
  (∀ k, k ∈ pre → busSub k = Ok (handle k)) →
  is_Some (m !! l) → busSub l = Fail err →
  ∃ m', armAll config busSub m (pre ++ l :: post)
        = (m', omap (subscribeCall config busSub m) (pre ++ [l]), Some err)
    ∧ ∀ k, m' !! k = if decide (k ∈ pre)
                     then (λ v, (v.1, [handle k])) <$> m !! k
                     else m !! k.
Proof.
  revert m. induction pre as [|p pre IH]; intros m Hnd Hok [[sb x] Hml] Hl.
  { exists m. cbn. unfold subscribeCall. rewrite Hml, Hl. cbn. split; [done|].
    intros k. by rewrite decide_False by apply not_elem_of_nil. }
  cbn [app] in Hnd. apply NoDup_cons in Hnd as [Hp Hnd].
  assert (Hpl : p ≠ l). { intros ->. apply Hp, elem_of_app. right. left. }
  assert (Hok' : ∀ k, k ∈ pre → busSub k = Ok (handle k)) by (intros; apply Hok; by right).
  cbn [app armAll]. unfold omap. cbn [list_omap]. unfold subscribeCall at 1.
  destruct (m !! p) as [[sbp xp]|] eqn:Hmp; cbn.
  - rewrite (Hok p) by left.
    destruct (IH (<[p := (sbp, [handle p])]> m) Hnd Hok') as (m' & -> & Hm').
    { rewrite lookup_insert_ne by done. eauto. } { done. }
    exists m'. split.
    + do 2 f_equal. f_equal. apply omap_ext_elem. intros k Hk. unfold subscribeCall.
      rewrite lookup_insert_ne; [done|]. intros ->. apply Hp.
      apply elem_of_app in Hk as [Hk|Hk%list_elem_of_singleton]; [|done].
      apply elem_of_app. by left.
    + intros k. rewrite Hm'. destruct (decide (k = p)) as [->|Hne].
      * rewrite decide_False by (intros Hin; apply Hp, elem_of_app; by left).
        rewrite decide_True by left. by rewrite lookup_insert_eq, Hmp.
      * rewrite lookup_insert_ne by done.
        destruct (decide (k ∈ pre)).
        -- by rewrite decide_True by (by right).
        -- rewrite decide_False; [done|]. by intros [?|?]%elem_of_cons.
  - destruct (IH m Hnd Hok') as (m' & -> & Hm'); [eauto|done|].
    exists m'. split; [done|].
    intros k. rewrite Hm'. destruct (decide (k = p)) as [->|Hne].
    + rewrite decide_False by (intros Hin; apply Hp, elem_of_app; by left).
      rewrite decide_True by left. by rewrite Hmp.
    + destruct (decide (k ∈ pre)).
      * by rewrite decide_True by (by right).
      * rewrite decide_False; [done|]. by intros [?|?]%elem_of_cons.
Qed.

(** The loop of [Deregister]. *)
Lemma unsubscribeAll_all unsub (order : list loc) (m : registry) :
  NoDup order →
  ∃ m', unsubscribeAll unsub m order = (m', order ≫= unsubscribeCalls unsub m)
    ∧ ∀ k, m' !! k = if decide (k ∈ order)
                     then (λ v, (v.1, [])) <$> m !! k
                     else m !! k.
Proof.
  revert m. induction order as [|l order IH]; intros m Hnd.
  { exists m. split; [done|]. intros k. by rewrite decide_False by apply not_elem_of_nil. }
  apply NoDup_cons in Hnd as [Hl Hnd].
  cbn [unsubscribeAll mbind list_bind]. unfold unsubscribeCalls at 1.
  destruct (m !! l) as [[sb x]|] eqn:Hml; cbn.
  - destruct (IH (<[l := (sb, [])]> m) Hnd) as (m' & -> & Hm').
    exists m'. split.
    + do 2 f_equal. apply bind_ext_elem. intros k Hk. unfold unsubscribeCalls.
      rewrite lookup_insert_ne; [done|]. by intros ->.
    + intros k. rewrite Hm'. destruct (decide (k = l)) as [->|Hne].
      * rewrite decide_False by done. rewrite decide_True by left.
        by rewrite lookup_insert_eq, Hml.
      * rewrite lookup_insert_ne by done.
        destruct (decide (k ∈ order)).
        -- by rewrite decide_True by (by right).
        -- rewrite decide_False; [done|]. by intros [?|?]%elem_of_cons.
  - destruct (IH m Hnd) as (m' & -> & Hm'). exists m'. split; [done|].
    intros k. rewrite Hm'. destruct (decide (k = l)) as [->|Hne].
    + rewrite decide_False by done. rewrite decide_True by left. by rewrite Hml.
    + destruct (decide (k ∈ order)).
      * by rewrite decide_True by (by right).
      * rewrite decide_False; [done|]. by intros [?|?]%elem_of_cons.
Qed.

Lemma length_omap_subscribeCall config busSub (m : registry) (order : list loc) :
  (∀ l, l ∈ order → is_Some (m !! l)) →
  length (omap (subscribeCall config busSub m) order) = length order.
Proof.
  unfold omap. induction order as [|l ls IH]; intros Hin; [done|]. cbn.
  unfold subscribeCall at 1. destruct (Hin l) as [v ->]; [left|]. cbn.
  f_equal. apply IH. intros k Hk. apply Hin. by right.
Qed.

(** An order in which the map is visited names every key once. *)
Lemma visit_order (m : registry) (order : list loc) :
  order ≡ₚ (map_to_list m).*1 →
  NoDup order ∧ ∀ l, l ∈ order ↔ is_Some (m !! l).
Proof.
  intros Ho. split.
  - rewrite Ho. apply NoDup_fst_map_to_list.
  - intros l. rewrite Ho, list_elem_of_fmap. split.
    + intros ([k v] & -> & Hkv%elem_of_map_to_list). eauto.
    + intros [v Hv]. exists (l, v). split; [done|]. by apply elem_of_map_to_list.
Qed.

(** The cold path of [Register] up to the second loop. *)
Lemma Register_cold (h : tcpServer) (env : RegisterEnv) (handler : tcpHandler) (svc0 : Service) :
  hd h = Some handler → rsvc h = None → registered h = false →
  newService env = Ok svc0 → svc_Nodes svc0 ≠ [] → dirRegister env = None →
  ∃ svc,
    svc_Endpoints svc = advertised (eps handler) (subscribers h) (orderAdvertise env)
    ∧ Register h env
      = (let '(m, evs, err) := armAll (s_opts h) (busSubscribe env) (subscribers h) (orderArm env) in
         match err with
         | Some err => (set_subscribers h m, DirRegister svc None :: evs, RErr (ErrText err))
         | None => ({| s_opts := s_opts h; hd := hd h; subscribers := m;
                       registered := true; rsvc := Some svc |},
                    DirRegister svc None :: evs, RNil)
         end).
Proof.
  intros Hhd Hrs Hreg Hnew Hnodes Hdir. unfold Register.
  rewrite Hhd, Hrs, Hnew, Hdir, Hreg.
  destruct svc0 as [name [|n ns] es]; [done|]. cbn. eexists. split; [|done]. done.
Qed.

(** X6. A first [Register] that meets no error arms every subscriber of
    the registry, the internal ones included, each with one [Subscribe] on
    the bus after the directory call, in the order the map is visited; it
    leaves each subscriber with the one binding the bus returned, the
    server registered and the service record cached. *)
Theorem register_arms_every_subscriber (h : tcpServer) (env : RegisterEnv)
    (handler : tcpHandler) (svc0 : Service) (handle : loc → brokerSubscriber) :
  hd h = Some handler → rsvc h = None → registered h = false →
  newService env = Ok svc0 → svc_Nodes svc0 ≠ [] → dirRegister env = None →
  orderArm env ≡ₚ (map_to_list (subscribers h)).*1 →
  (∀ l, l ∈ orderArm env → busSubscribe env l = Ok (handle l)) →
  ∃ svc m',
    Register h env
    = ({| s_opts := s_opts h; hd := hd h; subscribers := m';
          registered := true; rsvc := Some svc |},
       DirRegister svc None
         :: omap (subscribeCall (s_opts h) (busSubscribe env) (subscribers h)) (orderArm env),
       RNil)
    ∧ (∀ l, m' !! l = (λ v, (v.1, [handle l])) <$> subscribers h !! l)
    ∧ length (omap (subscribeCall (s_opts h) (busSubscribe env) (subscribers h)) (orderArm env))
      = size (subscribers h).
Proof.
  intros Hhd Hrs Hreg Hnew Hnodes Hdir Hord Hok.
  destruct (visit_order _ _ Hord) as [Hnd Hdom].
  destruct (Register_cold h env handler svc0) as (svc & _ & ->); [done..|].
  destruct (armAll_ok (s_opts h) (busSubscribe env) handle (orderArm env) (subscribers h))
    as (m' & -> & Hm'); [done..|].
  exists svc, m'. split_and!; [done| |].
  - intros l. rewrite Hm'. destruct (decide (l ∈ orderArm env)) as [|Hn]; [done|].
    destruct (subscribers h !! l) eqn:Hl; [|done]. exfalso. apply Hn, Hdom. eauto.
  - rewrite length_omap_subscribeCall by (intros; by apply Hdom).
    by rewrite <- length_map_to_list, Hord, length_fmap.
Qed.

(** X7. When a [Subscribe] on the bus fails during a first [Register], the
    directory has been told already: [Register] returns the bus error with
    the server still unregistered and no record cached, the subscribers
    visited before the failing one keep the binding they got and the others
    are not visited. *)
Theorem register_bus_failure (h : tcpServer) (env : RegisterEnv)
    (handler : tcpHandler) (svc0 : Service) (handle : loc → brokerSubscriber)
    (pre post : list loc) (l : loc) (err : string) :
  hd h = Some handler → rsvc h = None → registered h = false →
  newService env = Ok svc0 → svc_Nodes svc0 ≠ [] → dirRegister env = None →
  orderArm env = pre ++ l :: post →
  orderArm env ≡ₚ (map_to_list (subscribers h)).*1 →
  (∀ k, k ∈ pre → busSubscribe env k = Ok (handle k)) →
  busSubscribe env l = Fail err →
  ∃ svc m',
    Register h env
    = (set_subscribers h m',
       DirRegister svc None
         :: omap (subscribeCall (s_opts h) (busSubscribe env) (subscribers h)) (pre ++ [l]),
       RErr (ErrText err))
    ∧ registered (set_subscribers h m') = false
    ∧ rsvc (set_subscribers h m') = None
    ∧ ∀ k, m' !! k = if decide (k ∈ pre)
                     then (λ v, (v.1, [handle k])) <$> subscribers h !! k
                     else subscribers h !! k.
Proof.
  intros Hhd Hrs Hreg Hnew Hnodes Hdir Hord Hperm Hok Herr.
  destruct (visit_order _ _ Hperm) as [Hnd Hdom].
  assert (Hl : is_Some (subscribers h !! l)).
  { apply Hdom. rewrite Hord. apply elem_of_app. right. left. }
  destruct (Register_cold h env handler svc0) as (svc & _ & ->); [done..|].
  rewrite Hord in Hnd |- *.
  destruct (armAll_fail (s_opts h) (busSubscribe env) handle pre post l err (subscribers h))
    as (m' & -> & Hm'); [done..|].
  by exists svc, m'.
Qed.

(** X8. Whatever makes [Register] return something else than nil, the
    registered flag, the cached record and the handler stay as they were;
    when it is the directory that refuses, the whole server stays as it was
    and no [Subscribe] reaches the bus. *)
Theorem register_failure_unchanged (h : tcpServer) (env : RegisterEnv) :
  ((Register h env).2 ≠ RNil →
     registered (Register h env).1.1 = registered h
     ∧ rsvc (Register h env).1.1 = rsvc h
     ∧ hd (Register h env).1.1 = hd h)
  ∧ (∀ err, dirRegister env = Some err →
       (Register h env).1.1 = h
       ∧ (Register h env).2 ≠ RNil
       ∧ Forall (λ e, ∃ svc, e = DirRegister svc (Some err)) (Register h env).1.2).
Proof.
  split.
  - unfold Register. repeat case_match; cbn; intros; by simplify_eq.
  - intros err Herr. unfold Register. rewrite Herr.
    repeat case_match; cbn; split_and!; try done; repeat constructor; eauto.
Qed.

Lemma Deregister_registered (h : tcpServer) (env : DeregisterEnv) (svc : Service) :
  registered h = true → d_newService env = Ok svc → dirDeregister env = None →
  Deregister h env
  = (let '(m, evs) := unsubscribeAll (busUnsubscribe env) (subscribers h) (orderUnsubscribe env) in
     ({| s_opts := s_opts h; hd := hd h; subscribers := m;
         registered := false; rsvc := rsvc h |},
      DirDeregister svc None :: evs, RNil)).
Proof. intros Hreg Hnew Hdir. unfold Deregister. by rewrite Hnew, Hdir, Hreg. Qed.

(** X9. A [Deregister] of a registered server that the directory accepts
    calls [Unsubscribe] once for every binding of every subscriber and
    leaves every subscriber without a binding and the server unregistered,
    with the service record still cached; what the [Unsubscribe] calls
    return does not matter. *)
Theorem deregister_tears_down_all (h : tcpServer) (env : DeregisterEnv) (svc : Service) :
  registered h = true → d_newService env = Ok svc → dirDeregister env = None →
  orderUnsubscribe env ≡ₚ (map_to_list (subscribers h)).*1 →
  ∃ m',
    Deregister h env
    = ({| s_opts := s_opts h; hd := hd h; subscribers := m';
          registered := false; rsvc := rsvc h |},
       DirDeregister svc None
         :: (orderUnsubscribe env ≫= unsubscribeCalls (busUnsubscribe env) (subscribers h)),
       RNil)
    ∧ ∀ l, m' !! l = (λ v, (v.1, [])) <$> subscribers h !! l.
Proof.
  intros Hreg Hnew Hdir Hord. destruct (visit_order _ _ Hord) as [Hnd Hdom].
  rewrite (Deregister_registered h env svc) by done.
  destruct (unsubscribeAll_all (busUnsubscribe env) (orderUnsubscribe env) (subscribers h))
    as (m' & -> & Hm'); [done|].
  exists m'. split; [done|]. intros l. rewrite Hm'.
  destruct (decide (l ∈ orderUnsubscribe env)) as [|Hn]; [done|].
  destruct (subscribers h !! l) eqn:Hl; [|done]. exfalso. apply Hn, Hdom. eauto.
Qed.

(** X10. [Deregister] returns nil exactly when the service record can be
    built and the directory accepts the withdrawal; otherwise the server
    stays as it was, registered and armed if it was so, and nothing is
    unsubscribed.  On a server that is not registered it is the directory
    call alone. *)
Theorem deregister_result (h : tcpServer) (env : DeregisterEnv) :
  ((Deregister h env).2 = RNil
   ↔ (∃ svc, d_newService env = Ok svc) ∧ dirDeregister env = None)
  ∧ ((Deregister h env).2 ≠ RNil →
       (Deregister h env).1.1 = h
       ∧ Forall (λ e, ∃ svc err, e = DirDeregister svc err) (Deregister h env).1.2)
  ∧ (registered h = false →
       (Deregister h env).1.1 = h
       ∧ Forall (λ e, ∃ svc err, e = DirDeregister svc err) (Deregister h env).1.2).
Proof.
  unfold Deregister. split_and!.
  - repeat case_match; cbn; split; try done; try (intros [[? ?] ?]; done); eauto.
  - repeat case_match; cbn; intros; try done; split; try done; repeat constructor; eauto.
  - intros Hreg. rewrite Hreg.
    repeat case_match; cbn; split; try done; repeat constructor; eauto.
Qed.

Lemma register_arms_every_subscriber_witness :
  let h := serverWith internalSub in
  let env := registerEnv [1%positive; 2%positive] [2%positive; 1%positive] in
  ∃ svc m',
    Register h env
    = ({| s_opts := s_opts h; hd := hd h; subscribers := m';
          registered := true; rsvc := Some svc |},
       DirRegister svc None
         :: omap (subscribeCall (s_opts h) (busSubscribe env) (subscribers h)) (orderArm env),
       RNil)
    ∧ (∀ l, m' !! l = (λ v, (v.1, [sampleHandle l])) <$> subscribers h !! l)
    ∧ length (omap (subscribeCall (s_opts h) (busSubscribe env) (subscribers h)) (orderArm env))
      = size (subscribers h).
Proof.
  apply (register_arms_every_subscriber (serverWith internalSub)
           (registerEnv [1%positive; 2%positive] [2%positive; 1%positive])
           sampleHandler sampleService sampleHandle).
  - vm_compute. reflexivity.
  - vm_compute. reflexivity.
  - vm_compute. reflexivity.
  - reflexivity.
  - discriminate.
  - reflexivity.
  - refine (bool_decide_unpack _ _). vm_compute. exact I.
  - intros l _. reflexivity.
Defined.

Example register_arms_internal_subscriber :
  Internal (opts internalSub) = true
  ∧ (Register (serverWith internalSub)
       (registerEnv [1%positive; 2%positive] [2%positive; 1%positive])).1.2 !! 1
    = Some (BusSubscribe 2%positive "orders" "audit" "own" true (Ok (sampleHandle 2%positive))).
Proof. split; vm_compute; reflexivity. Qed.

Lemma register_bus_failure_witness :
  let h := serverWith auditSub in
  let env := busDownEnv [1%positive; 2%positive] [1%positive; 2%positive] in
  ∃ svc m',
    Register h env
    = (set_subscribers h m',
       DirRegister svc None
         :: omap (subscribeCall (s_opts h) (busSubscribe env) (subscribers h))
              ([1%positive] ++ [2%positive]),
       RErr (ErrText "bus down"))
    ∧ registered (set_subscribers h m') = false
    ∧ rsvc (set_subscribers h m') = None
    ∧ ∀ k, m' !! k = if decide (k ∈ [1%positive])
                     then (λ v, (v.1, [sampleHandle k])) <$> subscribers h !! k
                     else subscribers h !! k.
Proof.
  apply (register_bus_failure (serverWith auditSub)
           (busDownEnv [1%positive; 2%positive] [1%positive; 2%positive])
           sampleHandler sampleService sampleHandle [1%positive] [] 2%positive "bus down").
  - vm_compute. reflexivity.
  - vm_compute. reflexivity.
  - vm_compute. reflexivity.
  - reflexivity.
  - discriminate.
  - reflexivity.
  - reflexivity.
  - refine (bool_decide_unpack _ _). vm_compute. exact I.
  - intros k ->%list_elem_of_singleton. reflexivity.
  - reflexivity.
Defined.

Lemma deregister_tears_down_all_witness :
  let h := startedServer in
  let env := deregisterEnv [1%positive] in
  ∃ m',
    Deregister h env
    = ({| s_opts := s_opts h; hd := hd h; subscribers := m';
          registered := false; rsvc := rsvc h |},
       DirDeregister sampleService None
         :: (orderUnsubscribe env ≫= unsubscribeCalls (busUnsubscribe env) (subscribers h)),
       RNil)
    ∧ ∀ l, m' !! l = (λ v, (v.1, [])) <$> subscribers h !! l.
Proof.
  apply (deregister_tears_down_all startedServer (deregisterEnv [1%positive]) sampleService).
  - vm_compute. reflexivity.
  - reflexivity.
  - reflexivity.
  - refine (bool_decide_unpack _ _). vm_compute. exact I.
Defined.

Lemma bind_singleton_fmap {A B} (f : A → B) (l : list A) : l ≫= (λ x, [f x]) = f <$> l.
Proof. induction l as [|x l IH]; [done|]. cbn. by rewrite IH. Qed.

(** X11. On a server whose subscribers hold no binding, a first [Register]
    and then a [Deregister], both without error, bring the registry back to
    what it was and the server back to unregistered: every binding the bus
    returned is unsubscribed, once.  The service record stays cached. *)
Theorem register_deregister_round_trip (h : tcpServer) (env : RegisterEnv)
    (denv : DeregisterEnv) (handler : tcpHandler) (svc0 dsvc : Service)
    (handle : loc → brokerSubscriber) :
  hd h = Some handler → rsvc h = None → registered h = false →
  newService env = Ok svc0 → svc_Nodes svc0 ≠ [] → dirRegister env = None →
  orderArm env ≡ₚ (map_to_list (subscribers h)).*1 →
  (∀ l, l ∈ orderArm env → busSubscribe env l = Ok (handle l)) →
  (∀ l v, subscribers h !! l = Some v → v.2 = []) →
  d_newService denv = Ok dsvc → dirDeregister denv = None →
  orderUnsubscribe denv ≡ₚ (map_to_list (subscribers h)).*1 →
  let h1 := (Register h env).1.1 in
  let r := Deregister h1 denv in
  r.2 = RNil
  ∧ subscribers r.1.1 = subscribers h
  ∧ registered r.1.1 = false
  ∧ is_Some (rsvc r.1.1)
  ∧ r.1.2 = DirDeregister dsvc None
            :: ((λ l, BusUnsubscribe (handle l) (busUnsubscribe denv (handle l)))
                  <$> orderUnsubscribe denv).
Proof.
  intros Hhd Hrs Hreg Hnew Hnodes Hdir Hord Hok Hempty Hdnew Hddir Hdord h1 r.
  destruct (visit_order _ _ Hord) as [Hnd Hdom].
  destruct (visit_order _ _ Hdord) as [Hdnd Hddom].
  destruct (Register_cold h env handler svc0) as (svc & _ & HR); [done..|].
  destruct (armAll_ok (s_opts h) (busSubscribe env) handle (orderArm env) (subscribers h))
    as (m1 & Harm & Hm1); [done..|].
  rewrite Harm in HR.
  assert (Hm1' : ∀ l, m1 !! l = (λ v, (v.1, [handle l])) <$> subscribers h !! l).
  { intros l. rewrite Hm1. destruct (decide (l ∈ orderArm env)) as [|Hn]; [done|].
    destruct (subscribers h !! l) eqn:Hl; [|done]. exfalso. apply Hn, Hdom. eauto. }
  subst r h1. rewrite HR. cbn [fst].
  rewrite (Deregister_registered _ denv dsvc) by done. cbn [subscribers].
  destruct (unsubscribeAll_all (busUnsubscribe denv) (orderUnsubscribe denv) m1)
    as (m2 & -> & Hm2); [done|].
  cbn. split_and!; [done| |done|eauto|].
  - apply map_eq. intros l. rewrite Hm2, Hm1'.
    destruct (subscribers h !! l) as [[sb bs]|] eqn:Hl; cbn.
    + rewrite decide_True by (apply Hddom; eauto). cbn.
      by rewrite <- (Hempty l (sb, bs) Hl).
    + by case_decide.
  - f_equal. rewrite <- bind_singleton_fmap. apply bind_ext_elem. intros l Hl.
    unfold unsubscribeCalls. rewrite Hm1'.
    apply Hddom in Hl as [[sb bs] ->]. done.
Qed.

Lemma register_deregister_round_trip_witness :
  let h := serverWith internalSub in
  let h1 := (Register h (registerEnv [1%positive; 2%positive] [2%positive; 1%positive])).1.1 in
  let denv := deregisterEnv [1%positive; 2%positive] in
  let r := Deregister h1 denv in
  r.2 = RNil
  ∧ subscribers r.1.1 = subscribers h
  ∧ registered r.1.1 = false
  ∧ is_Some (rsvc r.1.1)
  ∧ r.1.2 = DirDeregister sampleService None
            :: ((λ l, BusUnsubscribe (sampleHandle l) (busUnsubscribe denv (sampleHandle l)))
                  <$> orderUnsubscribe denv).
Proof.
  apply (register_deregister_round_trip (serverWith internalSub)
           (registerEnv [1%positive; 2%positive] [2%positive; 1%positive])
           (deregisterEnv [1%positive; 2%positive])
           sampleHandler sampleService sampleService sampleHandle).
  - vm_compute. reflexivity.
  - vm_compute. reflexivity.
  - vm_compute. reflexivity.
  - reflexivity.
  - discriminate.
  - reflexivity.
  - refine (bool_decide_unpack _ _). vm_compute. exact I.
  - intros l _. reflexivity.
  - assert (HF : map_Forall (λ _ (v : tcpSubscriber * list brokerSubscriber), v.2 = [])
                   (subscribers (serverWith internalSub))).
    { refine (bool_decide_unpack _ _). vm_compute. exact I. }
    intros l v Hl. exact (map_Forall_lookup_1 _ _ _ _ HF Hl).
  - reflexivity.
  - reflexivity.
  - refine (bool_decide_unpack _ _). vm_compute. exact I.
Defined.

(** ** Once the service record is cached *)

Lemma cachedAfter_refl (svc : Service) (h : tcpServer) :
  rsvc h = Some svc → cachedAfter svc h h.
Proof. intros Hs. split_and!; [done|done|]. intros l sb bs Hl. by right. Qed.

Lemma cachedAfter_trans (svc : Service) (h1 h2 h3 : tcpServer) :
  cachedAfter svc h1 h2 → cachedAfter svc h2 h3 → cachedAfter svc h1 h3.
Proof.
  intros (Hs2 & Hr2 & Hb2) (Hs3 & Hr3 & Hb3). split_and!; [done|auto|].
  intros l sb bs Hl. destruct (Hb3 l sb bs Hl) as [?|Hl2]; [by left|]. eauto.
Qed.

Lemma Register_cached (h : tcpServer) (env : RegisterEnv) (svc : Service) :
  rsvc h = Some svc → (Register h env).1.1 = h.
Proof.
  intros Hs. unfold Register. rewrite Hs. by repeat case_match.
Qed.

Lemma unsubscribeAll_entries unsub (order : list loc) (m : registry) :
  ∀ l sb bs, (unsubscribeAll unsub m order).1 !! l = Some (sb, bs) →
             bs = [] ∨ m !! l = Some (sb, bs).
Proof.
  revert m. induction order as [|k order IH]; intros m l sb bs; cbn; [by right|].
  destruct (m !! k) as [[sbk x]|] eqn:Hk; [|apply IH].
  specialize (IH (<[k := (sbk, [])]> m) l sb bs).
  destruct (unsubscribeAll _ _ order) as [m' evs]. cbn in *.
  intros Hl. destruct (IH Hl) as [?|Hl']; [by left|].
  destruct (decide (l = k)) as [->|Hne].
  - rewrite lookup_insert_eq in Hl'. left. congruence.
  - rewrite lookup_insert_ne in Hl' by done. by right.
Qed.

Lemma Deregister_cachedAfter (h : tcpServer) (env : DeregisterEnv) (svc : Service) :
  rsvc h = Some svc → cachedAfter svc h (Deregister h env).1.1.
Proof.
  intros Hs. unfold Deregister.
  destruct (d_newService env) as [service|err]; [|by apply cachedAfter_refl].
  destruct (dirDeregister env); [by apply cachedAfter_refl|].
  destruct (registered h) eqn:Hreg; cbn; [|by apply cachedAfter_refl].
  destruct (unsubscribeAll _ _ _) as [m' evs] eqn:Hu. cbn.
  split_and!; [done|done|]. cbn. intros k sb bs Hk.
  apply (unsubscribeAll_entries (busUnsubscribe env) (orderUnsubscribe env)).
  by rewrite Hu.
Qed.

Section Cached.
Context `{Unicode}.

Lemma Subscribe_cachedAfter (h : tcpServer) (sb : Subscriber) (svc : Service) :
  rsvc h = Some svc → cachedAfter svc h (Subscribe h sb).1.
Proof.
  intros Hs. unfold Subscribe. destruct sb as [l sub|t]; [|by apply cachedAfter_refl].
  repeat case_match; cbn; try (by apply cachedAfter_refl).
  split_and!; [done|done|]. cbn. intros k sb' bs Hk.
  destruct (decide (k = l)) as [->|Hne].
  - rewrite lookup_insert_eq in Hk. left. congruence.
  - rewrite lookup_insert_ne in Hk by done. by right.
Qed.

Lemma runOp_cachedAfter (h : tcpServer) (o : op) (svc : Service) :
  rsvc h = Some svc → cachedAfter svc h (runOp h o).
Proof.
  intros Hs. destruct o as [hdl|sb|env|env|env]; cbn.
  - by split_and!; [done|done|right].
  - by apply Subscribe_cachedAfter.
  - rewrite (Register_cached h env svc) by done. by apply cachedAfter_refl.
  - by apply Deregister_cachedAfter.
  - pose proof (Deregister_cachedAfter h (t_deregister env) svc Hs) as Hd.
    destruct (tick_cases h env) as [->|[->| ->]].
    + rewrite (Register_cached _ _ svc) by apply Hd. done.
    + rewrite (Register_cached h _ svc) by done. by apply cachedAfter_refl.
    + by apply cachedAfter_refl.
Qed.

Lemma runOps_cachedAfter (ops : list op) (h : tcpServer) (svc : Service) :
  rsvc h = Some svc → cachedAfter svc h (runOps h ops).
Proof.
  revert h. induction ops as [|o ops IH]; intros h Hs; cbn; [by apply cachedAfter_refl|].
  pose proof (runOp_cachedAfter h o svc Hs) as Ho.
  eapply cachedAfter_trans; [exact Ho|]. apply IH, Ho.
Qed.

(** X12. The cached service record is never cleared or replaced.  From the
    moment it is cached, whatever is called on the server ([Handle],
    [Subscribe], [Register], [Deregister], heartbeat ticks), no subscriber
    is armed again: a subscriber holds the bindings it had or none, a
    subscriber added later never gets one, and a server that is
    unregistered stays so. *)
Theorem cached_record_stays (h : tcpServer) (svc : Service) (ops : list op) :
  rsvc h = Some svc →
  let h' := runOps h ops in
  rsvc h' = Some svc
  ∧ (registered h = false → registered h' = false)
  ∧ (∀ l sb bs, subscribers h' !! l = Some (sb, bs) →
                bs = [] ∨ subscribers h !! l = Some (sb, bs))
  ∧ (∀ l sb bs, subscribers h !! l = None → subscribers h' !! l = Some (sb, bs) → bs = []).
Proof.
  intros Hs h'. destruct (runOps_cachedAfter ops h svc Hs) as (H1 & H2 & H3).
  split_and!; [done..|]. intros l sb bs Hn Hl.
  destruct (H3 l sb bs Hl) as [?|Hl']; [done|]. by rewrite Hn in Hl'.
Qed.

End Cached.

Lemma cached_record_stays_witness :
  let ops := [OpDeregister (deregisterEnv [1%positive]);
              OpSubscribe (TcpSub 2%positive auditSub);
              OpRegister (registerEnv [1%positive; 2%positive] [1%positive; 2%positive])] in
  let h' := @runOps ascii_unicode startedServer ops in
  rsvc h' = rsvc startedServer
  ∧ (registered startedServer = false → registered h' = false)
  ∧ (∀ l sb bs, subscribers h' !! l = Some (sb, bs) →
                bs = [] ∨ subscribers startedServer !! l = Some (sb, bs))
  ∧ (∀ l sb bs, subscribers startedServer !! l = None →
                subscribers h' !! l = Some (sb, bs) → bs = []).
Proof.
  apply (@cached_record_stays ascii_unicode startedServer).
  vm_compute. reflexivity.
Defined.

Example late_subscriber_never_armed :
  let ops := [OpSubscribe (TcpSub 2%positive auditSub);
              OpRegister (registerEnv [1%positive; 2%positive] [1%positive; 2%positive])] in
  (snd <$> subscribers (@runOps ascii_unicode startedServer ops) !! 2%positive) = Some [].
Proof. vm_compute. reflexivity. Qed.

(** ** The accept loop, continued *)

(** X13. The accept loop hands every connection to [h.Serve] and sleeps
    once per temporary failure, one action per result of [Accept], until
    the first result it returns on: an error that is not temporary, or a
    temporary one while a stop is waiting.  A waiting stop is not looked at
    while [Accept] succeeds: those connections are served all the same.
    Nothing is done after the loop has returned. *)
Theorem serve_until_stop (tempDelay : Duration) (accepts : list accept) :
  let r := serve tempDelay accepts in
  served r.1.1 = conns (beforeStop accepts)
  ∧ length r.1.1 = length (beforeStop accepts)
  ∧ r.2 = existsb stops accepts
  ∧ (∀ c e, serve tempDelay ({| a_result := Conn c; a_exit := e |} :: accepts)
            = (Serve c :: r.1.1, r.1.2, r.2)).
Proof.
  intros r. subst r. split_and!.
  - revert tempDelay. induction accepts as [|a rest IH]; intros d; [done|].
    cbn [serve beforeStop]. unfold stops. destruct (a_result a) eqn:Ha.
    + specialize (IH d). destruct (serve d rest) as [[acts d'] r].
      unfold conns, served, omap in *. cbn. rewrite Ha. cbn. by f_equal.
    + destruct (a_exit a); [done|]. specialize (IH (nextDelay d)).
      destruct (serve (nextDelay d) rest) as [[acts d'] r].
      unfold conns, served, omap in *. cbn. by rewrite Ha.
    + done.
  - revert tempDelay. induction accepts as [|a rest IH]; intros d; [done|].
    cbn [serve beforeStop]. unfold stops. destruct (a_result a) eqn:Ha.
    + specialize (IH d). destruct (serve d rest) as [[acts d'] r]. cbn in *. by f_equal.
    + destruct (a_exit a); [done|]. specialize (IH (nextDelay d)).
      destruct (serve (nextDelay d) rest) as [[acts d'] r]. cbn in *. by f_equal.
    + done.
  - revert tempDelay. induction accepts as [|a rest IH]; intros d; [done|].
    cbn [serve existsb]. unfold stops at 1. destruct (a_result a) eqn:Ha.
    + specialize (IH d). by destruct (serve d rest) as [[acts d'] r].
    + destruct (a_exit a); [done|]. specialize (IH (nextDelay d)).
      by destruct (serve (nextDelay d) rest) as [[acts d'] r].
    + done.
  - intros c e. cbn. by destruct (serve tempDelay accepts) as [[acts d'] r].
Qed.

Example serve_ignores_exit_while_accepting :
  serve 0%Z [ {| a_result := Conn 1; a_exit := true |}; {| a_result := Conn 2; a_exit := true |};
              {| a_result := Temporary; a_exit := true |}; accepted 3 ]
  = ([Serve 1; Serve 2], 0%Z, true).
Proof. reflexivity. Qed.

Lemma nextDelay_range (d : Duration) :
  (0 ≤ d ≤ Second)%Z →
  nextDelay d = (if (d =? 0)%Z then 5 * Millisecond else Z.min (2 * d) Second)%Z
  ∧ (0 < nextDelay d ≤ Second)%Z ∧ (d ≤ nextDelay d)%Z.
Proof.
  intros Hd. unfold nextDelay. change (wrap64 (1 * Second)) with Second.
  change (wrap64 (5 * Millisecond)) with (5 * Millisecond)%Z.
  unfold Second, Millisecond in *.
  destruct (d =? 0)%Z eqn:Hz.
  - apply Z.eqb_eq in Hz as ->. vm_compute. split_and!; (reflexivity || discriminate).
  - apply Z.eqb_neq in Hz.
    rewrite wrap64_small by (change (2 ^ 63)%Z with 9223372036854775808%Z; lia).
    destruct (1000000000 <? d * 2)%Z eqn:Hlt; lia.
Qed.

(** X14. The backoff arithmetic never leaves the range of [tempDelay]:
    from a delay between 0 and one second, whatever [Accept] returns, the
    64-bit product does not wrap, every sleep is positive and at most one
    second, and the delay the loop ends with is again between 0 and one
    second and not below the one it started with. *)
Theorem serve_delay_range (tempDelay : Duration) (accepts : list accept) :
  (0 ≤ tempDelay ≤ Second)%Z →
  let r := serve tempDelay accepts in
  (0 ≤ r.1.2 ≤ Second)%Z
  ∧ (tempDelay ≤ r.1.2)%Z
  ∧ Forall (λ d, (0 < d ≤ Second)%Z) (sleeps r.1.1)
  ∧ nextDelay tempDelay
    = (if (tempDelay =? 0)%Z then 5 * Millisecond else Z.min (2 * tempDelay) Second)%Z.
Proof.
  intros Hd r. subst r. refine (conj _ (conj _ (conj _ _))); [| | |by apply nextDelay_range].
  - revert tempDelay Hd. induction accepts as [|a rest IH]; intros d Hd; [done|].
    cbn [serve]. destruct (a_result a).
    + specialize (IH d Hd). by destruct (serve d rest) as [[acts d'] r].
    + destruct (a_exit a); [done|].
      destruct (nextDelay_range d Hd) as (_ & Hn & _).
      specialize (IH (nextDelay d) ltac:(lia)).
      by destruct (serve (nextDelay d) rest) as [[acts d'] r].
    + done.
  - revert tempDelay Hd. induction accepts as [|a rest IH]; intros d Hd; [cbn; lia|].
    cbn [serve]. destruct (a_result a).
    + specialize (IH d Hd). by destruct (serve d rest) as [[acts d'] r].
    + destruct (a_exit a); [cbn; lia|].
      destruct (nextDelay_range d Hd) as (_ & Hn & Hle).
      specialize (IH (nextDelay d) ltac:(lia)).
      destruct (serve (nextDelay d) rest) as [[acts d'] r]. cbn in *. lia.
    + cbn. lia.
  - revert tempDelay Hd. induction accepts as [|a rest IH]; intros d Hd; [constructor|].
    cbn [serve]. destruct (a_result a).
    + specialize (IH d Hd). by destruct (serve d rest) as [[acts d'] r].
    + destruct (a_exit a); [constructor|].
      destruct (nextDelay_range d Hd) as (_ & Hn & _).
      specialize (IH (nextDelay d) ltac:(lia)).
      destruct (serve (nextDelay d) rest) as [[acts d'] r]. unfold sleeps, omap in *. cbn in *.
      by constructor.
    + constructor.
Qed.

Lemma serve_delay_range_witness :
  let r := serve 0%Z [temporary; accepted 1; temporary; fatal; temporary] in
  (0 ≤ r.1.2 ≤ Second)%Z
  ∧ (0 ≤ r.1.2)%Z
  ∧ Forall (λ d, (0 < d ≤ Second)%Z) (sleeps r.1.1)
  ∧ nextDelay 0%Z = (5 * Millisecond)%Z.
Proof.
  apply (serve_delay_range 0%Z [temporary; accepted 1; temporary; fatal; temporary]).
  unfold Second. lia.
Defined.

(** ** [Start] *)

Lemma acquireListener_events (config : StartOptions) (env : StartEnv) :
  Forall (λ e, isGo e = false) (acquireListener config env).2.
Proof.
  unfold acquireListener. repeat case_match; cbn; repeat constructor.
Qed.

Lemma Forall_EvServer (P : startEvent → bool) (evs : list event) :
  (∀ e, P (EvServer e) = false) → Forall (λ e, P e = false) (EvServer <$> evs).
Proof. intros HP. apply Forall_fmap, Forall_forall. intros e _. apply HP. Qed.

Lemma Register_cold_cached (h : tcpServer) (env : RegisterEnv) :
  rsvc h = None → registered h = false → (Register h env).2 = RNil →
  is_Some (rsvc (Register h env).1.1).
Proof.
  intros Hs Hreg. unfold Register. rewrite Hs, Hreg.
  repeat case_match; cbn; intros; simplify_eq; eauto.
Qed.

(** X15. [Start] returns nil exactly when a handler is set, a listener is
    at hand (the one of the context, or a new one that could be opened),
    the bus connects, [Register] returns nil and the handler's [Handler()]
    is a connection handler.  The accept loop and the heartbeat are
    started, on that listener and as the last thing [Start] does, exactly
    when it returns nil: on every failure no goroutine is left behind. *)
Theorem start_result (h : tcpServer) (config : StartOptions) (env : StartEnv) :
  let s := Start h config env in
  (st_result s = RNil
   ↔ is_Some (hd h)
     ∧ (∃ ts, (acquireListener config env).1 = Ok ts)
     ∧ s_connect env = None
     ∧ (Register h (s_register env)).2 = RNil
     ∧ s_handlerOk env = true)
  ∧ (st_result s = RNil →
       ∃ ts evs, st_listener s = Some ts
                 ∧ st_events s = evs ++ [EvGoServe ts; EvGoHeartbeat ts]
                 ∧ Forall (λ e, isGo e = false) evs)
  ∧ (st_result s ≠ RNil → Forall (λ e, isGo e = false) (st_events s)).
Proof.
  intros s. subst s. unfold Start.
  pose proof (acquireListener_events config env) as Ha.
  destruct (hd h) as [handler|].
  2: { split_and!; [|done|by constructor]. split; [done|]. by intros [[? ?] _]. }
  destruct (acquireListener config env) as [[ts|err] evs]; cbn in Ha.
  2: { split_and!; [|done|done]. split; [done|]. by intros (_ & [? ?] & _). }
  destruct (s_connect env) as [err|].
  { split_and!; [|done|]. { split; [done|]. by intros (_ & _ & ? & _). }
    intros _. apply Forall_app. split; [done|]. by repeat constructor. }
  destruct (Register h (s_register env)) as [[h' revs] r].
  assert (Hevs : Forall (λ e, isGo e = false) (evs ++ [EvConnect None] ++ (EvServer <$> revs))).
  { apply Forall_app. split; [done|]. apply Forall_cons. split; [done|].
    by apply Forall_EvServer. }
  destruct r as [|e|]; cbn.
  - destruct (s_handlerOk env); cbn.
    + split_and!; [|eauto|done]. split; [eauto 10|done].
    + split_and!; [|done|done]. split; [done|]. by intros (_ & _ & _ & _ & ?).
  - split_and!; [|done|done]. split; [done|]. by intros (_ & _ & _ & ? & _).
  - split_and!; [|done|done]. split; [done|]. by intros (_ & _ & _ & ? & _).
Qed.

(** X16. When the handler's [Handler()] is not a connection handler,
    [Start] finds out after everything else went well: it returns the
    "invalid handler" error with the listener open, the bus connected and
    the server registered by the [Register] it made, and starts no
    goroutine, so nothing serves the listener and nothing will
    deregister. *)
Theorem start_invalid_handler (h : tcpServer) (config : StartOptions) (env : StartEnv)
    (ts : Listener) :
  is_Some (hd h) → rsvc h = None → registered h = false →
  (acquireListener config env).1 = Ok ts →
  s_connect env = None →
  (Register h (s_register env)).2 = RNil →
  s_handlerOk env = false →
  let s := Start h config env in
  st_result s = RErr (ErrText ("invalid handler " +:+ s_handlerType env))
  ∧ st_server s = (Register h (s_register env)).1.1
  ∧ registered (st_server s) = true
  ∧ is_Some (rsvc (st_server s))
  ∧ st_listener s = Some ts
  ∧ Forall (λ e, isGo e = false) (st_events s).
Proof.
  intros [handler Hhd] Hrs Hun Hl Hc Hr Hok s. subst s.
  pose proof (Register_cold_registered h (s_register env) Hrs Hr) as Hreg.
  pose proof (acquireListener_events config env) as Ha.
  pose proof (Register_cold_cached h (s_register env) Hrs Hun Hr) as Hsvc.
  unfold Start. rewrite Hhd.
  destruct (acquireListener config env) as [[ts'|err] evs]; cbn in Hl, Ha; [|done].
  injection Hl as ->. rewrite Hc.
  destruct (Register h (s_register env)) as [[h' revs] r]. cbn in *. subst r.
  rewrite Hok. cbn. split_and!; try done.
  apply Forall_app. split; [done|]. apply Forall_cons. split; [done|].
  by apply Forall_EvServer.
Qed.

(** X17. A listener found in the context is used as it is: [Start] opens
    no listener and puts no limit on it, whatever the TLS configuration and
    the connection limit of the context are.  A listener [Start] opens
    itself is a TLS listener exactly when a TLS configuration is set, and
    is limited exactly when the context holds a positive limit. *)
Theorem start_listener (h : tcpServer) (config : StartOptions) (env : StartEnv) :
  (∀ l, getListener config = Some l → is_Some (hd h) →
        st_listener (Start h config env) = Some l
        ∧ Forall (λ e, isListen e = false) (st_events (Start h config env)))
  ∧ (∀ addr, getListener config = None → s_listen env = Ok addr →
       (acquireListener config env).1
       = Ok {| l_addr := addr; l_tls := so_TLS config;
               l_limit := match so_ctx config ≫= cx_maxConn with
                          | Some c => if (0 <? c)%Z then Some c else None
                          | None => None
                          end |})
  ∧ (∀ err, getListener config = None → s_listen env = Fail err → is_Some (hd h) →
       Start h config env
       = {| st_server := h; st_listener := None;
            st_events := [EvListen (so_TLS config) (so_Address config) (Fail err)];
            st_result := RErr (ErrText err) |}).
Proof.
  split_and!.
  - intros l Hl [handler Hhd]. unfold Start, acquireListener. rewrite Hhd, Hl.
    destruct (s_connect env) as [err|]; cbn; [by repeat constructor|].
    destruct (Register h (s_register env)) as [[h' revs] r].
    assert (Hevs : Forall (λ e, isListen e = false) (EvConnect None :: (EvServer <$> revs))).
    { apply Forall_cons. split; [done|]. by apply Forall_EvServer. }
    destruct r; [destruct (s_handlerOk env)|..]; cbn; split; try done.
    apply Forall_cons. split; [done|]. apply Forall_app.
    split; [by apply Forall_EvServer|by repeat constructor].
  - intros addr Hl Ha. unfold acquireListener. rewrite Hl, Ha.
    destruct (so_ctx config ≫= cx_maxConn) as [c|]; [|done]. by destruct (0 <? c)%Z.
  - intros err Hl Ha [handler Hhd]. unfold Start, acquireListener. by rewrite Hhd, Hl, Ha.
Qed.

Lemma start_result_witness :
  let s := Start readyServer sampleStartOptions (sampleStartEnv true) in
  ∃ ts evs, st_listener s = Some ts
            ∧ st_events s = evs ++ [EvGoServe ts; EvGoHeartbeat ts]
            ∧ Forall (λ e, isGo e = false) evs.
Proof.
  apply (proj1 (proj2 (start_result readyServer sampleStartOptions (sampleStartEnv true)))).
  vm_compute. reflexivity.
Defined.

Lemma start_invalid_handler_witness :
  let s := Start readyServer sampleStartOptions (sampleStartEnv false) in
  st_result s = RErr (ErrText ("invalid handler " +:+ "*shop.Handler"))
  ∧ st_server s = (Register readyServer (registerEnv [1%positive] [1%positive])).1.1
  ∧ registered (st_server s) = true
  ∧ is_Some (rsvc (st_server s))
  ∧ st_listener s = Some {| l_addr := "127.0.0.1:4000"; l_tls := false; l_limit := Some 8%Z |}
  ∧ Forall (λ e, isGo e = false) (st_events s).
Proof.
  apply (start_invalid_handler readyServer sampleStartOptions (sampleStartEnv false)).
  - vm_compute. eauto.
  - vm_compute. reflexivity.
  - vm_compute. reflexivity.
  - vm_compute. reflexivity.
  - reflexivity.
  - vm_compute. reflexivity.
  - reflexivity.
Defined.

Lemma start_listener_witness :
  let config := {| so_Address := ":0"; so_TLS := true;
                   so_ctx := Some {| cx_listener := Some {| l_addr := "test:1"; l_tls := false;
                                                            l_limit := None |};
                                     cx_maxConn := Some 8%Z |};
                   so_RegisterInterval := 0 |} in
  st_listener (Start readyServer config (sampleStartEnv true))
  = Some {| l_addr := "test:1"; l_tls := false; l_limit := None |}
  ∧ Forall (λ e, isListen e = false) (st_events (Start readyServer config (sampleStartEnv true))).
Proof.
  apply (proj1 (start_listener readyServer _ (sampleStartEnv true))).
  - reflexivity.
  - vm_compute. eauto.
Defined.

(** ** The heartbeat goroutine and [Stop] *)

Lemma heartbeat_ticks (interval : Z) (pre : list hbInput) (h : tcpServer) :
  Forall (λ i, ∃ env, i = HbTick env) pre →
  (heartbeat interval h pre).2 = false
  ∧ omap (λ e, match e with HbReply r => Some r | _ => None end) (heartbeat interval h pre).1.2 = []
  ∧ ((0 <? interval)%Z = false → (heartbeat interval h pre).1 = (h, [])).
Proof.
  intros HF. revert h. induction HF as [|i pre [env ->] _ IH]; intros h; [done|].
  cbn [heartbeat]. destruct (0 <? interval)%Z eqn:Hi.
  - destruct (tick h env) as [[h1 evs] calls].
    destruct (IH h1) as (IH1 & IH2 & _).
    destruct (heartbeat interval h1 pre) as [[h2 evs'] ended]. cbn in *.
    split_and!; [done| |done]. rewrite omap_app, IH2, app_nil_r.
    clear. unfold omap. by induction evs.
  - destruct (IH h) as (IH1 & IH2 & IH3). split_and!; [done|done|]. intros _. by apply IH3.
Qed.

Lemma heartbeat_app_exit (interval : Z) (pre post : list hbInput) (h : tcpServer)
    (c : option string) (d : DeregisterEnv) (x : option string) :
  Forall (λ i, ∃ env, i = HbTick env) pre →
  heartbeat interval h (pre ++ HbExit c d x :: post)
  = ((Deregister (heartbeat interval h pre).1.1 d).1.1,
     (heartbeat interval h pre).1.2
       ++ [HbClose c; HbReply c]
       ++ (HbServer <$> (Deregister (heartbeat interval h pre).1.1 d).1.2)
       ++ [HbDisconnect x],
     true).
Proof.
  intros HF. revert h. induction HF as [|i pre [env ->] _ IH]; intros h.
  - cbn. by destruct (Deregister h d) as [[h1 evs] r].
  - cbn [app heartbeat]. destruct (0 <? interval)%Z; [|apply IH].
    destruct (tick h env) as [[h1 evs] calls]. rewrite IH.
    destruct (heartbeat interval h1 pre) as [[h2 evs'] ended]. cbn.
    by rewrite <- app_assoc.
Qed.

(** X18. When the stop request arrives after any number of ticks, the
    heartbeat goroutine closes the listener, hands the result of the close
    to [Stop], and only then calls [Deregister] and disconnects the bus;
    what these two return is dropped, and nothing that arrives later is
    handled.  So [Stop] returns the listener's close error, whatever
    [Deregister] does, and before [Deregister] has run.  With an interval
    that is not positive the ticks change nothing. *)
Theorem heartbeat_exit (interval : Z) (pre post : list hbInput) (h : tcpServer)
    (c : option string) (d : DeregisterEnv) (x : option string) :
  Forall (λ i, ∃ env, i = HbTick env) pre →
  let before := heartbeat interval h pre in
  let r := heartbeat interval h (pre ++ HbExit c d x :: post) in
  r = ((Deregister before.1.1 d).1.1,
       before.1.2 ++ [HbClose c; HbReply c]
         ++ (HbServer <$> (Deregister before.1.1 d).1.2) ++ [HbDisconnect x],
       true)
  ∧ Stop r.1.2 = Some c
  ∧ Stop before.1.2 = None
  ∧ ((0 <? interval)%Z = false → before.1 = (h, [])).
Proof.
  intros HF before r. subst before r.
  destruct (heartbeat_ticks interval pre h HF) as (_ & Ho & Hz).
  rewrite heartbeat_app_exit by done. cbn [fst snd]. split_and!; [done| | |done].
  - unfold Stop. by rewrite omap_app, Ho.
  - unfold Stop. by rewrite Ho.
Qed.

Lemma heartbeat_exit_witness :
  let pre := [HbTick unhealthyTick] in
  let before := heartbeat 1%Z startedServer pre in
  let r := heartbeat 1%Z startedServer
             (pre ++ HbExit (Some "use of closed connection") (deregisterEnv [1%positive]) None
                  :: [HbTick unhealthyTick]) in
  r = ((Deregister before.1.1 (deregisterEnv [1%positive])).1.1,
       before.1.2 ++ [HbClose (Some "use of closed connection");
                      HbReply (Some "use of closed connection")]
         ++ (HbServer <$> (Deregister before.1.1 (deregisterEnv [1%positive])).1.2)
         ++ [HbDisconnect None],
       true)
  ∧ Stop r.1.2 = Some (Some "use of closed connection")
  ∧ Stop before.1.2 = None
  ∧ ((0 <? 1)%Z = false → before.1 = (startedServer, [])).
Proof.
  apply (heartbeat_exit 1%Z [HbTick unhealthyTick] [HbTick unhealthyTick] startedServer).
  repeat constructor. by eexists.
Defined.

(** ** The failure paths, on samples *)

Lemma register_failure_unchanged_witness :
  let env := {| newService := Ok sampleService; dirRegister := Some "directory down";
                orderAdvertise := [1%positive]; orderArm := [1%positive];
                busSubscribe := λ l, Ok (sampleHandle l) |} in
  (Register readyServer env).1.1 = readyServer
  ∧ (Register readyServer env).2 ≠ RNil
  ∧ Forall (λ e, ∃ svc, e = DirRegister svc (Some "directory down")) (Register readyServer env).1.2.
Proof.
  apply (proj2 (register_failure_unchanged readyServer _) "directory down"). reflexivity.
Defined.

Lemma deregister_result_witness :
  let env := deregisterEnv [] in
  (Deregister (NewServer sampleOptions) env).1.1 = NewServer sampleOptions
  ∧ Forall (λ e, ∃ svc err, e = DirDeregister svc err)
      (Deregister (NewServer sampleOptions) env).1.2.
Proof.
  apply (proj2 (proj2 (deregister_result (NewServer sampleOptions) (deregisterEnv [])))).
  reflexivity.
Defined.
